(** * GPS coordinates bridge: producer, WebSocket receiver / Kafka producer,
      Kafka consumer.

    A shallow embedding of the Go sources: the shared record of package
    [types], the two timing middlewares, the receiver's read loop, the Kafka
    write and the consumer's poll loop.  The client libraries the code calls
    (encoding/json, strconv, gorilla/websocket, confluent-kafka-go, log, time)
    are collaborators: strconv is an interface with its documented laws, the
    JSON decoder is written out for the one struct the program decodes, and
    the network, the broker and the clock answer from scripts held in the
    state of each process. *)

From Stdlib Require Import ZArith List String Ascii Bool Lia.
From Stdlib Require Import SpecFloat.
Import ListNotations.
Open Scope string_scope.
Open Scope list_scope.
Open Scope Z_scope.
Set Warnings "-register-all".

(** ** Machine data *)

(** Go's [int] on the 64-bit targets the services are built for. *)
Definition int_min : Z := - 2 ^ 63.
Definition int_max : Z := 2 ^ 63 - 1.
Definition is_int (z : Z) : Prop := int_min <= z <= int_max.
Definition is_intb (z : Z) : bool := (int_min <=? z) && (z <=? int_max).

(** Go's [float64]: IEEE 754 binary64, 53 bits of precision, emax 1024. *)
Definition float64 : Type := spec_float.
Definition prec64 : Z := 53.
Definition emax64 : Z := 1024.
Definition is_float64 (f : float64) : bool := valid_binary prec64 emax64 f.

(** [math.IsInf(f, 0) || math.IsNaN(f)] *)
Definition IsInf (f : float64) : bool :=
  match f with S754_infinity _ => true | _ => false end.
Definition IsNaN (f : float64) : bool :=
  match f with S754_nan => true | _ => false end.
Definition finite (f : float64) : bool := negb (IsInf f || IsNaN f).

(** The float of a small integer [n * 2^k], written in canonical form. *)
Definition f64_zero : float64 := S754_zero false.
Definition f64_90 : float64 := S754_finite false (45 * 2 ^ 47) (-46).
Definition f64_neg90 : float64 := S754_finite true (45 * 2 ^ 47) (-46).
Definition f64_180 : float64 := S754_finite false (45 * 2 ^ 47) (-45).
Definition f64_neg180 : float64 := S754_finite true (45 * 2 ^ 47) (-45).
Definition f64_40_5 : float64 := S754_finite false (81 * 2 ^ 46) (-47).
Definition f64_neg74 : float64 := S754_finite true (37 * 2 ^ 47) (-46).
Definition f64_1 : float64 := S754_finite false (2 ^ 52) (-52).

(** ** Package types *)

Module types.

Record SourceCoords : Type := mkSourceCoords
    { OBUID : Z;        (* `json:"obuid"` *)
      Lat : float64;    (* `json:"lat"` *)
      Lon : float64 }.  (* `json:"lon"` *)

  (** The zero value, [types.SourceCoords{}] and [var recv types.SourceCoords]. *)
Definition zero : SourceCoords := mkSourceCoords 0 f64_zero f64_zero.

  (** What the Go types guarantee of any value of the struct. *)
Definition well_typed (r : SourceCoords) : Prop :=
    is_int (OBUID r) /\ is_float64 (Lat r) = true /\ is_float64 (Lon r) = true.

  (** The ranges the field comments give: decimal degrees, -90 to +90 and
      -180 to +180. *)
Definition lat_in_range (f : float64) : bool :=
    SFleb f64_neg90 f && SFleb f f64_90.
Definition lon_in_range (f : float64) : bool :=
    SFleb f64_neg180 f && SFleb f f64_180.

  (** A valid record: a value of the struct whose coordinates are in range. *)
Definition valid (r : SourceCoords) : Prop :=
    well_typed r /\ lat_in_range (Lat r) = true /\ lon_in_range (Lon r) = true.

(** A record the encoder accepts: a value of the struct with no NaN and no
    infinity in it. *)
Definition marshalable (r : SourceCoords) : Prop :=
  well_typed r /\ finite (Lat r) = true /\ finite (Lon r) = true.

End types.
Import types.

(** ** Errors the libraries return *)

Inductive error : Type :=
  | SyntaxError                                   (* json: invalid text *)
  | ErrUnexpectedEOF                              (* ReadJSON on an empty message *)
  | UnmarshalTypeError (value field : string)     (* json: value does not fit the Go field *)
  | UnsupportedValueError                         (* json.Marshal of NaN or an infinity *)
  | CloseError (code : Z)                         (* websocket: the peer closed *)
  | NetError                                      (* websocket: any other read failure *)
  | KafkaError (code : Z).                        (* confluent-kafka-go kafka.Error *)

Definition CloseGoingAway : Z := 1001.
Definition CloseAbnormalClosure : Z := 1006.

(** ** strconv, as encoding/json uses it

    A JSON number is kept as its literal.  [ParseInt] is
    [strconv.ParseInt(s, 10, 64)] and [ParseFloat] is [strconv.ParseFloat(s, 64)],
    [None] standing for a non-nil error (syntax or range); [FormatInt] and
    [FormatFloat] are the encoder's renderings of an [int] and of a finite
    [float64] (shortest digits that read back as the same value). *)
Class Strconv : Type := {
  numlit : Type;
  ParseInt : numlit -> option Z;
  FormatInt : Z -> numlit;
  ParseFloat : numlit -> option float64;
  FormatFloat : float64 -> numlit;
  ParseInt_is_int : forall n z, ParseInt n = Some z -> is_int z;
  ParseInt_FormatInt : forall z, is_int z -> ParseInt (FormatInt z) = Some z;
  ParseFloat_finite :
    forall n f, ParseFloat n = Some f -> is_float64 f = true /\ finite f = true;
  ParseFloat_FormatFloat :
    forall f, is_float64 f = true -> finite f = true ->
              ParseFloat (FormatFloat f) = Some f
}.

(** ** encoding/json, for [types.SourceCoords] *)

Module json.
Section WithStrconv.
Context {S : Strconv}.

  (** A JSON text by its structure; object members in the order written. *)
Inductive value : Type :=
    | Null
    | Bool (b : bool)
    | Number (n : numlit)
    | String (s : string)
    | Array (elems : list value)
    | Object (members : list (string * value)).

  (** A byte slice, as far as the decoders can tell slices apart: the text
      of one JSON value; such a text followed by further bytes that are not
      white space; bytes that do not begin with a complete JSON value; or no
      bytes at all ([nil]). *)
Inductive bytes : Type :=
    | Text (v : value)
    | Trailing (v : value)
    | Malformed
    | Empty.

  (** The word the decoder puts in [UnmarshalTypeError.Value]. *)
Definition kind (v : value) : string :=
    match v with
    | Null => "null" | Bool _ => "bool" | Number _ => "number"
    | String _ => "string" | Array _ => "array" | Object _ => "object"
    end.

  (** Keys match a field's name exactly or under case folding; for the three
      names of this struct the folding is that of ASCII letters. *)
Definition lower (c : ascii) : ascii :=
    let n := nat_of_ascii c in
    if (Nat.leb 65 n && Nat.leb n 90)%bool then ascii_of_nat (n + 32) else c.
Fixpoint fold (s : string) : string :=
    match s with
    | EmptyString => EmptyString
    | String.String c s' => String.String (lower c) (fold s')
    end.
Definition EqualFold (a b : string) : bool := String.eqb (fold a) (fold b).

  (** The decoder keeps the first error and goes on ([d.saveError]). *)
Definition saveError (saved : option error) (e : error) : option error :=
    match saved with Some _ => saved | None => Some e end.

Definition store_int (v : value) (field : string) (old : Z) (saved : option error)
    : Z * option error :=
    match v with
    | Null => (old, saved)
    | Number n =>
        match ParseInt n with
        | Some z => (z, saved)
        | None => (old, saveError saved (UnmarshalTypeError "number" field))
        end
    | _ => (old, saveError saved (UnmarshalTypeError (kind v) field))
    end.

Definition store_float (v : value) (field : string) (old : float64)
             (saved : option error) : float64 * option error :=
    match v with
    | Null => (old, saved)
    | Number n =>
        match ParseFloat n with
        | Some f => (f, saved)
        | None => (old, saveError saved (UnmarshalTypeError "number" field))
        end
    | _ => (old, saveError saved (UnmarshalTypeError (kind v) field))
    end.

  (** One member of an object decoded into the struct; unknown keys are
      skipped. *)
Definition member (st : SourceCoords * option error) (kv : string * value)
    : SourceCoords * option error :=
    let '(r, saved) := st in
    let '(k, v) := kv in
    if EqualFold k "obuid" then
      let '(z, saved') := store_int v "obuid" (OBUID r) saved in
      (mkSourceCoords z (Lat r) (Lon r), saved')
    else if EqualFold k "lat" then
      let '(f, saved') := store_float v "lat" (Lat r) saved in
      (mkSourceCoords (OBUID r) f (Lon r), saved')
    else if EqualFold k "lon" then
      let '(f, saved') := store_float v "lon" (Lon r) saved in
      (mkSourceCoords (OBUID r) (Lat r) f, saved')
    else (r, saved).


  (** Decoding a value into [*r]: what [r] holds afterwards and the error. *)
Definition decode_value (v : value) (r : SourceCoords)
    : SourceCoords * option error :=
    match v with
    | Null => (r, None)
    | Object ms => fold_left member ms (r, None)
    | _ => (r, Some (UnmarshalTypeError (kind v) "SourceCoords"))
    end.

  (** [json.Unmarshal(data, &r)]: the whole slice is checked before
      anything is stored. *)
Definition Unmarshal (data : bytes) (r : SourceCoords)
    : SourceCoords * option error :=
    match data with
    | Text v => decode_value v r
    | Trailing _ | Malformed | Empty => (r, Some SyntaxError)
    end.

  (** [json.NewDecoder(rd).Decode(&r)] followed by ReadJSON's rewrite of
      [io.EOF], on a message whose payload is [data]: the stream decoder
      reads the first JSON value and leaves what follows it unread. *)
Definition Decode (data : bytes) (r : SourceCoords)
    : SourceCoords * option error :=
    match data with
    | Text v | Trailing v => decode_value v r
    | Malformed => (r, Some SyntaxError)
    | Empty => (r, Some ErrUnexpectedEOF)
    end.



  (** [json.Marshal(r)]: the bytes and the error. *)
Definition Marshal (r : SourceCoords) : bytes * option error :=
    if (IsInf (Lat r) || IsNaN (Lat r) || (IsInf (Lon r) || IsNaN (Lon r)))%bool
    then (Empty, Some UnsupportedValueError)
    else (Text (Object [("obuid", Number (FormatInt (OBUID r)));
                        ("lat", Number (FormatFloat (Lat r)));
                        ("lon", Number (FormatFloat (Lon r)))]),
          None).

End WithStrconv.
End json.

(** ** The world a process runs in

    Every service talks to its collaborators through calls; the calls it
    makes are recorded in [trace], in the order made, and what the
    collaborators answer is read off scripts.  An exhausted script answers
    with success: no error, nothing left to flush, the clock standing
    still. *)

Section Processes.
Context {S : Strconv}.

(** [kafka.Message] as the producer builds it. *)
Record Message : Type := mkMessage
  { Topic : string; Partition : Z; Value : json.bytes }.

Definition PartitionAny : Z := -1.

Inductive log_line : Type :=
  | LogErr (e : error)                      (* fmt.Println(err) *)
  | LogUnexpectedClosure                    (* log.Println("Unexpected closure") *)
  | LogReceived (r : SourceCoords)          (* log.Printf("kafka receiver: %v", recv) *)
  | LogPayload (b : json.bytes)                  (* log.Println(string(resp)) *)
  | LogWriteTook (d : Z)                    (* log.Println("Writing to Kafka took: ", ...) *)
  | LogGenerationTook (d : Z)               (* log.Printf("GPS data generation took: %v", ...) *)
  | LogProducerFailed (e : error)           (* "ERROR: Failed to create Kafka producer" *)
  | LogFlushWarning (remaining : Z)         (* "WARNING: %d messages still in queue ..." *)
  | LogHeaders                              (* log.Printf("%v", e.Headers) *)
  | LogUnmarshal (e : error)                (* log.Println("Couldn't unmarshal message", err) *)
  | LogKafkaError (e : error).              (* fmt.Fprintf(os.Stderr, "%% Error: %v\n", e) *)

Inductive event : Type :=
  | EvLog (l : log_line)
  | EvNewProducer (servers : string)        (* kafka.NewProducer *)
  | EvProduce (m : Message)                 (* p.Producer.Produce(m, nil) *)
  | EvFlush (timeoutMs : Z)                 (* p.Producer.Flush(timeoutMs) *)
  | EvConnClose                             (* c.Close() on the WebSocket *)
  | EvSend (r : SourceCoords)               (* c.msgChan <- r *)
  | EvConsumerClose.                        (* c.Consumer.Close() *)

Record World : Type := mkWorld
  { clock : list Z;                         (* successive readings of time.Now() *)
    last_time : Z;
    new_producer : option error;            (* what kafka.NewProducer answers *)
    produce_replies : list (option error);  (* what successive Produce calls return *)
    flush_replies : list Z }.               (* what successive Flush calls return *)

(** A call either returns or panics. *)
Inductive result (A : Type) : Type :=
  | Returned (a : A)
  | Panicked (msg : string).
Arguments Returned {A} a.
Arguments Panicked {A} msg.

(** A computation: its result, the world it leaves and the calls it made,
    in the order made. *)
Record run (A : Type) : Type := mkRun
  { res : result A; world : World; events : list event }.
Arguments mkRun {A} _ _ _.
Arguments res {A} _.
Arguments world {A} _.
Arguments events {A} _.

Definition M (A : Type) : Type := World -> run A.

Definition ret {A} (a : A) : M A := fun w => mkRun (Returned a) w [].
Definition panic {A} (msg : string) : M A := fun w => mkRun (Panicked msg) w [].
Definition bind {A B} (m : M A) (k : A -> M B) : M B :=
  fun w =>
    let r := m w in
    match res r with
    | Returned a =>
        let r' := k a (world r) in
        mkRun (res r') (world r') (events r ++ events r')
    | Panicked msg => mkRun (Panicked msg) (world r) (events r)
    end.

(** [defer d] before a body: [d] runs when the body returns or panics, and
    cannot change the results already set. *)
Definition defer {A} (d : M unit) (body : M A) : M A :=
  fun w =>
    let r := body w in
    let r' := d (world r) in
    mkRun (res r) (world r') (events r ++ events r').

Notation "x <- m ;; k" := (bind m (fun x => k))
  (at level 61, m at next level, right associativity).
Notation "m ;;; k" := (bind m (fun _ => k))
  (at level 61, right associativity).

Definition emit (e : event) : M unit := fun w => mkRun (Returned tt) w [e].
Definition log (l : log_line) : M unit := emit (EvLog l).

(** [time.Now()] *)
Definition Now : M Z :=
  fun w => match clock w with
           | [] => mkRun (Returned (last_time w)) w []
           | t :: rest =>
               mkRun (Returned t)
                     (mkWorld rest t (new_producer w) (produce_replies w)
                              (flush_replies w)) []
           end.

(** [time.Since(start)] *)
Definition Since (start : Z) : M Z := now <- Now ;; ret (now - start).

(** ** data_receiver_kafka_producer/kafka *)

Definition server : string := "gpscords_app-kafka-1:9092".
Definition topic : string := "gpscoords".

(** The handle the constructor returns; the librdkafka producer behind it
    is the world's broker script. *)
Record KafkaProducer : Type := mkKafkaProducer
  { kp_topic : string }.

(** [kafka.NewProducer]; the goroutine that prints delivery reports touches
    nothing the callers see. *)
Definition NewKafkaProducer : M (option KafkaProducer * option error) :=
  emit (EvNewProducer server) ;;;
  fun w =>
    match new_producer w with
    | Some err =>
        (log (LogProducerFailed err) ;;; ret (None, Some err)) w
    | None => ret (Some (mkKafkaProducer topic), None) w
    end.

(** [p.Producer.Produce(msg, nil)] *)
Definition Produce (m : Message) : M (option error) :=
  emit (EvProduce m) ;;;
  fun w => match produce_replies w with
           | [] => mkRun (Returned None) w []
           | r :: rest =>
               mkRun (Returned r)
                     (mkWorld (clock w) (last_time w) (new_producer w) rest
                              (flush_replies w)) []
           end.

(** [p.Producer.Flush(timeoutMs)] *)
Definition Flush (timeoutMs : Z) : M Z :=
  emit (EvFlush timeoutMs) ;;;
  fun w => match flush_replies w with
           | [] => mkRun (Returned 0) w []
           | r :: rest =>
               mkRun (Returned r)
                     (mkWorld (clock w) (last_time w) (new_producer w)
                              (produce_replies w) rest) []
           end.

(** [func (p *KafkaProducer) KafkaWrite(word []byte)]; a nil receiver is
    dereferenced at [p.Producer]. *)
Definition KafkaWrite (p : option KafkaProducer) (word : json.bytes) : M unit :=
  match p with
  | None => panic "invalid memory address or nil pointer dereference"
  | Some _ =>
      _ <- Produce (mkMessage topic PartitionAny word) ;;
      remaining <- Flush (15 * 1000) ;;
      if remaining >? 0 then log (LogFlushWarning remaining) else ret tt
  end.

(** ** data_receiver_kafka_producer/handlers *)

(** [func MiddlewareRead(w []byte, t *kafka.KafkaProducer)] *)
Definition MiddlewareRead (w : json.bytes) (t : option KafkaProducer) : M unit :=
  start <- Now ;;
  defer (d <- Since start ;; log (LogWriteTook d))
        (KafkaWrite t w).

(** What one read of the connection finds: a data message with its
    payload, or a failure of the read. *)
Inductive ws_read : Type :=
  | Frame (payload : json.bytes)
  | ReadFails (e : error).

(** A connection is what its successive reads will find; past the end of
    the list the peer has gone away. *)
Definition Conn : Type := list ws_read.

(** [c.ReadJSON(&recv)]: the error, what [recv] holds afterwards, and the
    rest of the connection. *)
Definition ReadJSON (c : Conn) (recv : SourceCoords)
  : option error * SourceCoords * Conn :=
  match c with
  | [] => (Some (CloseError CloseAbnormalClosure), recv, [])
  | ReadFails e :: rest => (Some e, recv, rest)
  | Frame payload :: rest =>
      let '(recv', err) := json.Decode payload recv in (err, recv', rest)
  end.

(** The [for] loop of [ReadMessageLoop], one read per turn. *)
Fixpoint read_loop (k : option KafkaProducer) (c : Conn) (recv : SourceCoords)
  : M unit :=
  match c with
  | [] => log LogUnexpectedClosure
  | ReadFails e :: _ => log LogUnexpectedClosure
  | Frame payload :: rest =>
      match json.Decode payload recv with
      | (_, Some err) => log LogUnexpectedClosure
      | (recv', None) =>
          log (LogReceived recv') ;;;
          let '(resp, _) := json.Marshal recv' in
          log (LogPayload resp) ;;;
          MiddlewareRead resp k ;;;
          read_loop k rest recv'
      end
  end.

(** What a session publishes: the record in the receive variable after
    each successful read, up to the first read that fails. *)
Fixpoint accepted (c : Conn) (recv : SourceCoords) : list SourceCoords :=
  match c with
  | Frame payload :: rest =>
      match json.Decode payload recv with
      | (recv', None) => recv' :: accepted rest recv'
      | (_, Some _) => []
      end
  | _ => []
  end.

(** [func ReadMessageLoop(c *websocket.Conn)] *)
Definition ReadMessageLoop (c : Conn) : M unit :=
  defer (emit EvConnClose)
        (ke <- NewKafkaProducer ;;
         let '(k, err) := ke in
         (match err with Some e => log (LogErr e) | None => ret tt end) ;;;
         read_loop k c zero).


(** ** producer *)

(** [func MiddlewareReceiver(h func() (int, float64, float64)) (int, float64, float64)] *)
Definition MiddlewareReceiver (h : M (Z * float64 * float64))
  : M (Z * float64 * float64) :=
  start <- Now ;;
  defer (d <- Since start ;; log (LogGenerationTook d))
        h.

(** ** kafka_reader/kafka *)

(** What one [c.Consumer.Poll(100)] returns: a message, an error, or
    anything else ([nil] on a timeout, other events). *)
Inductive poll_event : Type :=
  | PollMessage (value : json.bytes)
  | PollError (e : error)
  | PollOther.

(** The [for run == true] loop of [kafkaconsumeLoop] over what the
    successive polls return; the result is [run] once those are used up
    ([true]: the loop is still polling). *)
Fixpoint poll_loop (evs : list poll_event) (t : SourceCoords) : M bool :=
  match evs with
  | [] => ret true
  | PollMessage value :: rest =>
      log LogHeaders ;;;
      let '(t', err) := json.Unmarshal value t in
      (match err with Some e => log (LogUnmarshal e) | None => ret tt end) ;;;
      emit (EvSend t') ;;;
      poll_loop rest t'
  | PollError e :: _ =>
      log (LogKafkaError e) ;;;
      ret false
  | PollOther :: rest => poll_loop rest t
  end.

(** [func kafkaconsumeLoop(c *KafkaConsumer)]: the deferred
    [c.Consumer.Close()] runs when the loop is left. *)
Definition kafkaconsumeLoop (evs : list poll_event) : M bool :=
  run <- poll_loop evs zero ;;
  if run : bool then ret true else emit EvConsumerClose ;;; ret false.

(** ** Reading a run *)

(** The payloads handed to [Produce], in call order. *)
Definition produced (t : list event) : list json.bytes :=
  flat_map (fun e => match e with EvProduce m => [Value m] | _ => [] end) t.

(** The calls made to the broker client, in call order. *)
Definition broker_calls (t : list event) : list event :=
  filter (fun e => match e with EvProduce _ | EvFlush _ => true | _ => false end) t.

(** Everything but log lines. *)
Definition data_path (t : list event) : list event :=
  filter (fun e => match e with EvLog _ => false | _ => true end) t.

(** The records sent on the consumer's channel, in order. *)
Definition sent (t : list event) : list SourceCoords :=
  flat_map (fun e => match e with EvSend r => [r] | _ => [] end) t.

(** The wire form of a record, as the receiver republishes it. *)
Definition encode (r : SourceCoords) : json.bytes := fst (json.Marshal r).

(** What [time.Now()] returns in a world, and the world after the reading. *)
Definition now_of (w : World) : Z :=
  match clock w with [] => last_time w | t :: _ => t end.
Definition tick (w : World) : World :=
  match clock w with
  | [] => w
  | t :: rest =>
      mkWorld rest t (new_producer w) (produce_replies w) (flush_replies w)
  end.

(** What [KafkaWrite] prints after a flush that left [remaining] messages. *)
Definition flush_warning (remaining : Z) : list event :=
  if remaining >? 0 then [EvLog (LogFlushWarning remaining)] else [].

(** The same world with another script for [Produce]. *)
Definition with_produce_replies (ps : list (option error)) (w : World) : World :=
  mkWorld (clock w) (last_time w) (new_producer w) ps (flush_replies w).

End Processes.

Arguments Returned {A} a.
Arguments Panicked {A} msg.
Arguments mkRun {S A} _ _ _.
Arguments res {S A} _.
Arguments world {S A} _.
Arguments events {S A} _.

(** ** Reading a consumer's polls *)

Section Polls.
Context {S : Strconv}.

Definition is_poll_error (ev : poll_event) : bool :=
  match ev with PollError _ => true | _ => false end.
Definition is_poll_message (ev : poll_event) : bool :=
  match ev with PollMessage _ => true | _ => false end.
Definition is_poll_other (ev : poll_event) : bool :=
  match ev with PollOther => true | _ => false end.

(** What the loop may emit: log lines and the two broker calls. *)
Definition loop_event (e : event) : bool :=
  match e with EvLog _ | EvProduce _ | EvFlush _ => true | _ => false end.

(** The polls the loop gets to handle: those before the first error. *)
Fixpoint until_error (evs : list poll_event) : list poll_event :=
  match evs with
  | [] => []
  | PollError _ :: _ => []
  | ev :: rest => ev :: until_error rest
  end.

(** What the consumer loop sends: the loop variable after each message,
    decoded or not, up to the first error. *)
Fixpoint forwarded (evs : list poll_event) (t : SourceCoords) : list SourceCoords :=
  match evs with
  | [] => []
  | PollMessage value :: rest =>
      let t' := fst (json.Unmarshal value t) in t' :: forwarded rest t'
  | PollError _ :: _ => []
  | PollOther :: rest => forwarded rest t
  end.

End Polls.

(** ** producer: the generator and the send loop *)

Definition f64_99 : float64 := S754_finite false (99 * 2 ^ 46) (-46).

Section ProducerProcess.
Context {S : Strconv}.

(** What one call of [retOBUdata] draws from math/rand: [rand.Int()] and
    two [rand.Float64()], in that order. *)
Record draw : Type := mkDraw { rand_Int : Z; rand_Float64_1 : float64; rand_Float64_2 : float64 }.

(** [func retOBUdata() (int, float64, float64)], with binary64
    multiplication and addition rounded one after the other. *)
Definition retOBUdata (d : draw) : M (Z * float64 * float64) :=
  ret (rand_Int d,
       SFadd prec64 emax64 (SFmul prec64 emax64 (rand_Float64_1 d) f64_99) f64_1,
       SFadd prec64 emax64 (SFmul prec64 emax64 (rand_Float64_2 d) f64_99) f64_1).

(** The record the loop builds from one draw. *)
Definition generated (d : draw) : SourceCoords :=
  mkSourceCoords
    (rand_Int d)
    (SFadd prec64 emax64 (SFmul prec64 emax64 (rand_Float64_1 d) f64_99) f64_1)
    (SFadd prec64 emax64 (SFmul prec64 emax64 (rand_Float64_2 d) f64_99) f64_1).

(** [conn.WriteJSON(t)]: when the connection takes the message ([reply] is
    [None]) the peer gets one message holding what the encoder wrote,
    nothing if marshalling failed, and the marshal error is returned; when
    it does not, nothing is delivered and the connection's error is
    returned. *)
Definition WriteJSON (reply : option error) (t : SourceCoords)
  : list json.bytes * option error :=
  match reply with
  | Some e => ([], Some e)
  | None => ([fst (json.Marshal t)], snd (json.Marshal t))
  end.

Inductive producer_event : Type :=
  | PCall (e : event)                 (* a call made under MiddlewareReceiver *)
  | PSleep (ns : Z)                   (* time.Sleep(time.Second) *)
  | PPrint (t : SourceCoords)         (* fmt.Printf("Producer sending: ...") *)
  | PWrite (payload : json.bytes)     (* a message handed to the connection *)
  | PLogWriteError (e : error).       (* log.Printf("ERROR: Unable to write message: %v", err) *)

Definition Second : Z := 1000000000.

(** The [for] loop of the producer's [main], one turn per draw; [replies]
    are the connection's answers to the successive writes, an exhausted
    script accepting. *)
Fixpoint send_loop (draws : list draw) (replies : list (option error)) (w : World)
  : list producer_event * World :=
  match draws with
  | [] => ([], w)
  | d :: rest =>
      let r := MiddlewareReceiver (retOBUdata d) w in
      match res r with
      | Returned (a, b, c) =>
          let t := mkSourceCoords a b c in
          let '(msgs, err) := WriteJSON (hd None replies) t in
          let '(later, w') := send_loop rest (tl replies) (world r) in
          (map PCall (events r)
             ++ [PSleep Second; PPrint t]
             ++ map PWrite msgs
             ++ match err with Some e => [PLogWriteError e] | None => [] end
             ++ later,
           w')
      | Panicked _ => (map PCall (events r), world r)
      end
  end.

(** The messages handed to the connection, in order. *)
Definition written (t : list producer_event) : list json.bytes :=
  flat_map (fun e => match e with PWrite b => [b] | _ => [] end) t.

(** The records the loop announced on standard output, in order. *)
Definition printed (t : list producer_event) : list SourceCoords :=
  flat_map (fun e => match e with PPrint r => [r] | _ => [] end) t.

(** The draws whose write the connection accepts. *)
Fixpoint delivered (draws : list draw) (replies : list (option error)) : list draw :=
  match draws with
  | [] => []
  | d :: rest =>
      match hd None replies with
      | None => d :: delivered rest (tl replies)
      | Some _ => delivered rest (tl replies)
      end
  end.

End ProducerProcess.

(** ** Publish Queue and Source Session

    The repository has neither: the receiver calls [KafkaWrite] for each
    record.  Sections 4.2 and 4.3 of the specification describe them.  Time
    is counted in ticks; while a session waits on a full queue the
    Publisher takes entries away, [drain] giving how many at each tick. *)
Module PublishQueue.

(** Modelled from the spec: the two enqueue policies of a Source Session,
    which the repository does not have. *)
Inductive Policy : Type := FailOpen | FailClosed.

(** Modelled from the spec: the session state machine
    [Connecting -> Active -> Draining -> Closed]. *)
Inductive SessionState : Type := Connecting | Active | Draining | Closed.

(** Modelled from the spec: the entry, the queue and the session of the
    data model (section 3). *)
Record PublishQueueEntry : Type := mkEntry
  { record : SourceCoords; enqueueTime : Z; retryCount : Z }.

(** Capacity is fixed at construction. *)
Record Queue : Type := mkQueue
  { capacity : nat; entries : list PublishQueueEntry }.

Record SourceSession : Type := mkSession
  { sourceID : Z; sequence : Z; state : SessionState; drops : Z }.

Inductive EnqueueResult : Type := Enqueued | Dropped | SessionClosed | NotActive.

Definition full (q : Queue) : bool := Nat.leb (capacity q) (List.length (entries q)).

(** The Publisher takes the [n] oldest entries. *)
Definition dequeue (n : nat) (q : Queue) : Queue :=
  mkQueue (capacity q) (skipn n (entries q)).

(** Modelled from the spec: the Publish Queue's [enqueue], absent from the
    repository.  Append when there is room, else wait a tick and try again,
    up to [timeout] ticks.  Returns the queue, whether the entry went in,
    and the ticks spent blocked. *)
Fixpoint enqueue (q : Queue) (e : PublishQueueEntry) (timeout : nat)
         (drain : list nat) : Queue * bool * nat :=
  if full q then
    match timeout with
    | O => (q, false, O)
    | S timeout' =>
        let '(q', ok, waited) :=
          enqueue (dequeue (hd O drain) q) e timeout' (tl drain) in
        (q', ok, S waited)
    end
  else (mkQueue (capacity q) (entries q ++ [e]), true, O).

(** Modelled from the spec: a Source Session's attempt to enqueue the
    record it has just read, absent from the repository.  On a full queue
    the session blocks up to the timeout, then drops the record and counts
    the drop (fail-open) or closes (fail-closed). *)
Definition attempt (policy : Policy) (timeout : nat) (drain : list nat)
           (now : Z) (s : SourceSession) (q : Queue) (r : SourceCoords)
  : SourceSession * Queue * EnqueueResult * nat :=
  match state s with
  | Active =>
      let '(q', ok, waited) := enqueue q (mkEntry r now 0) timeout drain in
      if ok then
        (mkSession (sourceID s) (sequence s + 1) Active (drops s), q', Enqueued, waited)
      else
        match policy with
        | FailOpen =>
            (mkSession (sourceID s) (sequence s + 1) Active (drops s + 1), q', Dropped, waited)
        | FailClosed =>
            (mkSession (sourceID s) (sequence s + 1) Closed (drops s), q', SessionClosed, waited)
        end
  | _ => (s, q, NotActive, O)
  end.

End PublishQueue.

(** ** A strconv to compute with

    Literals told apart by what they denote: the decimal text of an
    integer, or the shortest text of a binary64 value. *)
Inductive literal : Type :=
  | IntLit (z : Z)
  | FloatLit (f : float64)
  | BadLit.

Definition lit_ParseInt (n : literal) : option Z :=
  match n with
  | IntLit z => if is_intb z then Some z else None
  | _ => None
  end.

Definition checked (f : float64) : option float64 :=
  if (is_float64 f && finite f)%bool then Some f else None.

Definition lit_ParseFloat (n : literal) : option float64 :=
  match n with
  | IntLit z => checked (binary_normalize prec64 emax64 z 0 false)
  | FloatLit f => checked f
  | BadLit => None
  end.


(** ** The computing strconv is a strconv *)

Lemma is_intb_spec (z : Z) : is_intb z = true <-> is_int z.
Proof.
  unfold is_intb, is_int.
  rewrite andb_true_iff, !Z.leb_le. tauto.
Qed.

Lemma checked_Some (f g : float64) :
  checked f = Some g -> g = f /\ is_float64 f = true /\ finite f = true.
Proof.
  unfold checked. destruct (is_float64 f) eqn:V, (finite f) eqn:F; cbn; try discriminate.
  intros H. injection H as <-. auto.
Qed.

Lemma lit_ParseInt_is_int (n : literal) (z : Z) :
  lit_ParseInt n = Some z -> is_int z.
Proof.
  destruct n as [z' | f | ]; cbn; try discriminate.
  destruct (is_intb z') eqn:E; try discriminate.
  intros H. injection H as <-. now apply is_intb_spec.
Qed.

Lemma lit_ParseInt_FormatInt (z : Z) : is_int z -> lit_ParseInt (IntLit z) = Some z.
Proof.
  intros H. cbn. apply is_intb_spec in H. now rewrite H.
Qed.

Lemma lit_ParseFloat_finite (n : literal) (f : float64) :
  lit_ParseFloat n = Some f -> is_float64 f = true /\ finite f = true.
Proof.
  destruct n as [z | g | ]; cbn [lit_ParseFloat]; try discriminate;
    intros H; apply checked_Some in H; destruct H as (-> & V & F); auto.
Qed.

Lemma lit_ParseFloat_FormatFloat (f : float64) :
  is_float64 f = true -> finite f = true -> lit_ParseFloat (FloatLit f) = Some f.
Proof.
  intros V F. cbn. unfold checked. now rewrite V, F.
Qed.

#[export] Instance literal_strconv : Strconv :=
  {| numlit := literal;
     ParseInt := lit_ParseInt;
     FormatInt := IntLit;
     ParseFloat := lit_ParseFloat;
     FormatFloat := FloatLit;
     ParseInt_is_int := lit_ParseInt_is_int;
     ParseInt_FormatInt := lit_ParseInt_FormatInt;
     ParseFloat_finite := lit_ParseFloat_finite;
     ParseFloat_FormatFloat := lit_ParseFloat_FormatFloat |}.


(** ** Sample data *)

Definition sample_world : World :=
  mkWorld [100; 130; 200; 260] 0 None [Some (KafkaError 1); None] [0; 2].

Definition r1 : SourceCoords := mkSourceCoords 42 f64_40_5 f64_neg74.
Definition r2 : SourceCoords := mkSourceCoords 43 f64_1 f64_neg180.
Definition r3 : SourceCoords := mkSourceCoords 44 f64_90 f64_180.


(** [{"obuid": 7}] *)
Definition missing_fields_payload : json.bytes :=
  json.Text (json.Object [("obuid", json.Number (IntLit 7))]).

(** [{"obuid": 7, "lat": "x"}] *)
Definition bad_lat_payload : json.bytes :=
  json.Text (json.Object [("obuid", json.Number (IntLit 7));
                          ("lat", json.String "x")]).

Definition sample_session : PublishQueue.SourceSession :=
  PublishQueue.mkSession 42 5 PublishQueue.Active 0.

Definition sample_full_queue : PublishQueue.Queue :=
  PublishQueue.mkQueue 2 [PublishQueue.mkEntry r1 10 0; PublishQueue.mkEntry r2 11 0].

(** What [rand.Float64()] may return: 1/2 and 15/16. *)
Definition half : float64 := S754_finite false (2 ^ 52) (-53).
Definition fifteen_sixteenths : float64 := S754_finite false (15 * 2 ^ 49) (-53).
Definition draw1 : draw := mkDraw 1001 half fifteen_sixteenths.
Definition draw2 : draw := mkDraw 1002 fifteen_sixteenths half.

(** A world in which [kafka.NewProducer] fails. *)
Definition failed_world : World :=
  mkWorld [5; 9] 0 (Some (KafkaError 2)) [] [].

(** * Properties *)

(** ** The codec *)

Section Codec.
Context {S : Strconv}.

Lemma lat_in_range_finite (f : float64) : lat_in_range f = true -> finite f = true.
Proof.
  intros H. destruct f as [s | s | | s m e]; try reflexivity;
    try destruct s; vm_compute in H; discriminate.
Qed.

Lemma lon_in_range_finite (f : float64) : lon_in_range f = true -> finite f = true.
Proof.
  intros H. destruct f as [s | s | | s m e]; try reflexivity;
    try destruct s; vm_compute in H; discriminate.
Qed.

Lemma valid_marshalable (r : SourceCoords) : valid r -> marshalable r.
Proof.
  intros (T & La & Lo). split; [exact T | split].
  - now apply lat_in_range_finite.
  - now apply lon_in_range_finite.
Qed.

Lemma finite_not_special (f : float64) :
  finite f = true -> (IsInf f || IsNaN f)%bool = false.
Proof. unfold finite. now destruct (IsInf f || IsNaN f)%bool. Qed.

Lemma Marshal_marshalable (r : SourceCoords) :
  marshalable r ->
  json.Marshal r =
    (json.Text (json.Object [("obuid", json.Number (FormatInt (OBUID r)));
                             ("lat", json.Number (FormatFloat (Lat r)));
                             ("lon", json.Number (FormatFloat (Lon r)))]),
     None).
Proof.
  intros (_ & La & Lo). unfold json.Marshal.
  now rewrite (finite_not_special _ La), (finite_not_special _ Lo).
Qed.

(** Decoding an object that carries the three members as numbers strconv
    accepts overwrites the three fields, whatever they held. *)
Lemma decode_three_numbers (i la lo : numlit) (z : Z) (f g : float64)
      (prev : SourceCoords) :
  ParseInt i = Some z -> ParseFloat la = Some f -> ParseFloat lo = Some g ->
  json.decode_value
    (json.Object [("obuid", json.Number i); ("lat", json.Number la);
                  ("lon", json.Number lo)]) prev
  = (mkSourceCoords z f g, None).
Proof.
  intros Hi Hla Hlo.
  unfold json.decode_value. cbn [fold_left]. unfold json.member.
  change (json.EqualFold "obuid" "obuid") with true.
  change (json.EqualFold "lat" "obuid") with false.
  change (json.EqualFold "lat" "lat") with true.
  change (json.EqualFold "lon" "obuid") with false.
  change (json.EqualFold "lon" "lat") with false.
  change (json.EqualFold "lon" "lon") with true.
  cbn -[ParseInt ParseFloat]. now rewrite Hi, Hla, Hlo.
Qed.

Lemma decode_encode (r prev : SourceCoords) :
  marshalable r -> json.Decode (encode r) prev = (r, None).
Proof.
  intros M. unfold encode. rewrite (Marshal_marshalable r M). cbn [fst json.Decode].
  destruct M as ((I & VLa & VLo) & La & Lo).
  rewrite (decode_three_numbers _ _ _ (OBUID r) (Lat r) (Lon r)).
  - now destruct r.
  - now apply ParseInt_FormatInt.
  - now apply ParseFloat_FormatFloat.
  - now apply ParseFloat_FormatFloat.
Qed.

(** C2. Round trip: for every valid record [r] (a value of the struct with
    latitude in [-90, 90] and longitude in [-180, 180]), decoding the bytes
    [json.Marshal] produces for [r] gives [r] again and no error, through
    the decoder of [ReadJSON] and through [json.Unmarshal] alike, whatever
    the receiving variable held before. *)
Theorem decode_encode_roundtrip (r prev : SourceCoords) :
  valid r ->
  json.Decode (encode r) prev = (r, None) /\
  json.Unmarshal (encode r) prev = (r, None).
Proof.
  intros V. apply valid_marshalable in V.
  pose proof (decode_encode r prev V) as D. split; [exact D | ].
  unfold encode in *. rewrite (Marshal_marshalable r V) in *. exact D.
Qed.

(** C6. Encoding never fails on a valid record, and its output is the JSON
    object with exactly the members "obuid", "lat", "lon", in that order:
    "obuid" a number literal that reads back as the integer identifier,
    "lat" and "lon" number literals that read back as the two floats. *)
Theorem encode_valid_wire_format (r : SourceCoords) :
  valid r ->
  exists i la lo : numlit,
    json.Marshal r =
      (json.Text (json.Object [("obuid", json.Number i);
                               ("lat", json.Number la);
                               ("lon", json.Number lo)]), None) /\
    ParseInt i = Some (OBUID r) /\
    ParseFloat la = Some (Lat r) /\
    ParseFloat lo = Some (Lon r).
Proof.
  intros V. apply valid_marshalable in V.
  exists (FormatInt (OBUID r)), (FormatFloat (Lat r)), (FormatFloat (Lon r)).
  split; [now apply Marshal_marshalable | ].
  destruct V as ((I & VLa & VLo) & La & Lo).
  repeat split.
  - now apply ParseInt_FormatInt.
  - now apply ParseFloat_FormatFloat.
  - now apply ParseFloat_FormatFloat.
Qed.

End Codec.

(** ** The receiver: Kafka write, middleware and read loop *)

Section Bridge.
Context {S : Strconv}.

Lemma Now_run (w : World) : Now w = mkRun (Returned (now_of w)) (tick w) [].
Proof. unfold tick, now_of, Now. now destruct (clock w). Qed.

Lemma Since_run (start : Z) (w : World) :
  Since start w = mkRun (Returned (now_of w - start)) (tick w) [].
Proof. unfold Since, bind. rewrite Now_run. reflexivity. Qed.

Lemma KafkaWrite_run (kp : KafkaProducer) (word : json.bytes) (w : World) :
  KafkaWrite (Some kp) word w =
    mkRun (Returned tt)
          (mkWorld (clock w) (last_time w) (new_producer w)
                   (tl (produce_replies w)) (tl (flush_replies w)))
          ([EvProduce (mkMessage topic PartitionAny word); EvFlush 15000]
             ++ flush_warning (hd 0 (flush_replies w))).
Proof.
  destruct w as [ck lt np ps fs].
  unfold KafkaWrite, Produce, Flush, flush_warning, bind, emit, log, ret; cbn.
  destruct ps as [ | p ps]; destruct fs as [ | f fs]; cbn; try reflexivity;
    destruct (f >? 0); reflexivity.
Qed.

Lemma MiddlewareRead_run (kp : KafkaProducer) (b : json.bytes) (w : World) :
  MiddlewareRead b (Some kp) w =
    let r := KafkaWrite (Some kp) b (tick w) in
    mkRun (Returned tt) (tick (world r))
          (events r ++ [EvLog (LogWriteTook (now_of (world r) - now_of w))]).
Proof.
  unfold MiddlewareRead, bind at 1. rewrite Now_run. cbn [res world events].
  unfold defer, bind. rewrite KafkaWrite_run. cbn [res world events].
  rewrite Since_run. cbn [res world events].
  unfold log, emit. cbn. reflexivity.
Qed.

(** The loop body, one turn at a time: the turn is [ReadJSON], and a turn
    whose read fails leaves the loop. *)
Lemma read_loop_reject (k : option KafkaProducer) (c : Conn) (recv recv' : SourceCoords)
      (rest : Conn) (e : error) (w : World) :
  ReadJSON c recv = (Some e, recv', rest) ->
  read_loop k c recv w = mkRun (Returned tt) w [EvLog LogUnexpectedClosure].
Proof.
  destruct c as [ | [payload | e'] c']; cbn; try reflexivity.
  destruct (json.Decode payload recv) as [r [err | ]]; [reflexivity | discriminate].
Qed.

Lemma read_loop_accept (kp : KafkaProducer) (c : Conn) (recv recv' : SourceCoords)
      (rest : Conn) (w : World) :
  ReadJSON c recv = (None, recv', rest) ->
  read_loop (Some kp) c recv w =
    let m := MiddlewareRead (encode recv') (Some kp) w in
    let r := read_loop (Some kp) rest recv' (world m) in
    mkRun (res r) (world r)
          ([EvLog (LogReceived recv'); EvLog (LogPayload (encode recv'))]
             ++ events m ++ events r).
Proof.
  destruct c as [ | [payload | e'] c']; cbn [ReadJSON]; try discriminate.
  cbn [read_loop].
  destruct (json.Decode payload recv) as [r [err | ]]; [discriminate | ].
  intros H. injection H as <- <-.
  unfold encode. destruct (json.Marshal r) as [resp merr]. cbn [fst].
  unfold bind, log, emit. cbn [res world events].
  rewrite MiddlewareRead_run. cbn [res world events].
  rewrite <- !app_assoc. reflexivity.
Qed.

Lemma produced_app (t u : list event) : produced (t ++ u) = produced t ++ produced u.
Proof. unfold produced. now rewrite flat_map_app. Qed.

Lemma broker_calls_app (t u : list event) :
  broker_calls (t ++ u) = broker_calls t ++ broker_calls u.
Proof. unfold broker_calls. now rewrite filter_app. Qed.

Lemma broker_calls_flush_warning (n : Z) : broker_calls (flush_warning n) = [].
Proof. unfold flush_warning. now destruct (n >? 0). Qed.

Lemma produced_flush_warning (n : Z) : produced (flush_warning n) = [].
Proof. unfold flush_warning. now destruct (n >? 0). Qed.

Lemma MiddlewareRead_broker_calls (kp : KafkaProducer) (b : json.bytes) (w : World) :
  broker_calls (events (MiddlewareRead b (Some kp) w)) =
    [EvProduce (mkMessage topic PartitionAny b); EvFlush 15000].
Proof.
  rewrite MiddlewareRead_run. cbn [events]. rewrite KafkaWrite_run. cbn [events].
  rewrite !broker_calls_app, broker_calls_flush_warning. reflexivity.
Qed.

Lemma MiddlewareRead_produced (kp : KafkaProducer) (b : json.bytes) (w : World) :
  produced (events (MiddlewareRead b (Some kp) w)) = [b].
Proof.
  rewrite MiddlewareRead_run. cbn [events]. rewrite KafkaWrite_run. cbn [events].
  rewrite !produced_app, produced_flush_warning. reflexivity.
Qed.

Lemma read_loop_produced (kp : KafkaProducer) (c : Conn) :
  forall (recv : SourceCoords) (w : World),
    produced (events (read_loop (Some kp) c recv w)) = map encode (accepted c recv).
Proof.
  induction c as [ | [payload | e] rest IH]; intros recv w; try reflexivity.
  destruct (json.Decode payload recv) as [r err] eqn:D.
  destruct err as [e | ].
  - rewrite (read_loop_reject _ _ recv r rest e); [ | cbn; now rewrite D].
    cbn [accepted]. now rewrite D.
  - rewrite (read_loop_accept kp _ recv r rest); [ | cbn; now rewrite D].
    cbn [events accepted]. rewrite D.
    rewrite !produced_app, MiddlewareRead_produced, IH. reflexivity.
Qed.

Lemma read_loop_broker_calls (kp : KafkaProducer) (c : Conn) :
  forall (recv : SourceCoords) (w : World),
    broker_calls (events (read_loop (Some kp) c recv w)) =
      flat_map (fun b => [EvProduce (mkMessage topic PartitionAny b); EvFlush 15000])
               (map encode (accepted c recv)).
Proof.
  induction c as [ | [payload | e] rest IH]; intros recv w; try reflexivity.
  destruct (json.Decode payload recv) as [r err] eqn:D.
  destruct err as [e | ].
  - rewrite (read_loop_reject _ _ recv r rest e); [ | cbn; now rewrite D].
    cbn [accepted]. now rewrite D.
  - rewrite (read_loop_accept kp _ recv r rest); [ | cbn; now rewrite D].
    cbn [events accepted]. rewrite D.
    rewrite !broker_calls_app, MiddlewareRead_broker_calls, IH. reflexivity.
Qed.

Lemma accepted_encoded (rs : list SourceCoords) :
  Forall marshalable rs ->
  forall recv, accepted (map (fun r => Frame (encode r)) rs) recv = rs.
Proof.
  induction 1 as [ | r rs M _ IH]; intros recv; [reflexivity | ].
  cbn [map accepted]. rewrite (decode_encode r recv M). now rewrite IH.
Qed.

Lemma ReadMessageLoop_run (c : Conn) (w : World) :
  new_producer w = None ->
  ReadMessageLoop c w =
    let r := read_loop (Some (mkKafkaProducer topic)) c zero w in
    mkRun (res r) (world r) ([EvNewProducer server] ++ events r ++ [EvConnClose]).
Proof.
  intros NP. unfold ReadMessageLoop, defer, NewKafkaProducer, bind, emit, ret.
  cbn [res world events]. rewrite NP. cbn [res world events].
  reflexivity.
Qed.

(** C3. Per-source order: when a connection delivers the encodings of the
    valid records [rs] one after the other, and the producer was created,
    the payloads the session hands to [Produce] are the encodings of [rs],
    each once and in the order read. *)
Theorem publish_in_read_order (rs : list SourceCoords) (w : World) :
  new_producer w = None ->
  Forall valid rs ->
  produced (events (ReadMessageLoop (map (fun r => Frame (encode r)) rs) w))
  = map encode rs.
Proof.
  intros NP V. rewrite (ReadMessageLoop_run _ w NP). cbn [events].
  rewrite !produced_app, read_loop_produced. cbn [produced flat_map app].
  rewrite app_nil_r. f_equal. apply accepted_encoded.
  eapply Forall_impl; [ | exact V]. apply valid_marshalable.
Qed.

(** C5. Synchronous flush on every message: one call of [KafkaWrite]
    makes exactly one [Produce] (topic "gpscoords", any partition, the
    payload) followed by one [Flush] with a timeout of 15000 ms; and a
    session publishes every message it accepts: the payloads handed to
    [Produce] are the encodings of the records held after each successful
    read, and the calls to the broker client are, for each of them in
    turn, that [Produce] immediately followed by that [Flush], so no two
    records are ever produced between flushes. *)
Theorem KafkaWrite_produce_then_flush (kp : KafkaProducer) (word : json.bytes)
        (c : Conn) (recv : SourceCoords) (w : World) :
  broker_calls (events (KafkaWrite (Some kp) word w))
  = [EvProduce (mkMessage topic PartitionAny word); EvFlush (15 * 1000)] /\
  produced (events (read_loop (Some kp) c recv w)) = map encode (accepted c recv) /\
  broker_calls (events (read_loop (Some kp) c recv w))
  = flat_map (fun b => [EvProduce (mkMessage topic PartitionAny b); EvFlush (15 * 1000)])
             (map encode (accepted c recv)).
Proof.
  split; [ | split].
  - rewrite KafkaWrite_run. cbn [events].
    rewrite broker_calls_app, broker_calls_flush_warning. reflexivity.
  - apply read_loop_produced.
  - apply read_loop_broker_calls.
Qed.

Lemma data_path_app (t u : list event) : data_path (t ++ u) = data_path t ++ data_path u.
Proof. unfold data_path. now rewrite filter_app. Qed.

(** C7. The timing wrappers are the identity on what they wrap.
    [MiddlewareReceiver h] runs [h] once (after reading the clock), returns
    what [h] returns, and adds one log line; [MiddlewareRead w t] runs
    [t.KafkaWrite(w)] once, ends as it ends, and adds one log line.  Apart
    from log lines the calls made are those of the wrapped call, and the
    world is left as the wrapped call leaves it but for the clock read. *)
Theorem middleware_identity (h : M (Z * float64 * float64)) (b : json.bytes)
        (t : option KafkaProducer) (w : World) :
  (res (MiddlewareReceiver h w) = res (h (tick w)) /\
   world (MiddlewareReceiver h w) = tick (world (h (tick w))) /\
   events (MiddlewareReceiver h w)
   = events (h (tick w))
       ++ [EvLog (LogGenerationTook (now_of (world (h (tick w))) - now_of w))] /\
   data_path (events (MiddlewareReceiver h w)) = data_path (events (h (tick w)))) /\
  (res (MiddlewareRead b t w) = res (KafkaWrite t b (tick w)) /\
   world (MiddlewareRead b t w) = tick (world (KafkaWrite t b (tick w))) /\
   events (MiddlewareRead b t w)
   = events (KafkaWrite t b (tick w))
       ++ [EvLog (LogWriteTook (now_of (world (KafkaWrite t b (tick w))) - now_of w))] /\
   data_path (events (MiddlewareRead b t w))
   = data_path (events (KafkaWrite t b (tick w)))).
Proof.
  assert (W : forall (A : Type) (body : M A) (l : Z -> log_line),
             let m := bind Now (fun start => defer (bind (Since start) (fun d => log (l d))) body) in
             res (m w) = res (body (tick w)) /\
             world (m w) = tick (world (body (tick w))) /\
             events (m w)
             = events (body (tick w))
                 ++ [EvLog (l (now_of (world (body (tick w))) - now_of w))]).
  { intros A body l m. unfold m, bind, defer.
    rewrite Now_run. cbn [res world events].
    rewrite Since_run. cbn [res world events app].
    repeat split; reflexivity. }
  split.
  - destruct (W _ h LogGenerationTook) as (R & Wd & E).
    unfold MiddlewareReceiver.
    split; [exact R | split; [exact Wd | split; [exact E | ]]].
    rewrite E, data_path_app. apply app_nil_r.
  - destruct (W _ (KafkaWrite t b) LogWriteTook) as (R & Wd & E).
    unfold MiddlewareRead.
    split; [exact R | split; [exact Wd | split; [exact E | ]]].
    rewrite E, data_path_app. apply app_nil_r.
Qed.

Lemma tick_with_produce_replies (ps : list (option error)) (w : World) :
  tick (with_produce_replies ps w) = with_produce_replies ps (tick w).
Proof. destruct w as [ck lt np pr fr]. destruct ck; reflexivity. Qed.

Lemma MiddlewareRead_with_produce_replies
      (kp : KafkaProducer) (b : json.bytes) (ps : list (option error)) (w : World) :
  events (MiddlewareRead b (Some kp) (with_produce_replies ps w))
  = events (MiddlewareRead b (Some kp) w) /\
  world (MiddlewareRead b (Some kp) (with_produce_replies ps w))
  = with_produce_replies (tl ps) (world (MiddlewareRead b (Some kp) w)).
Proof.
  rewrite !MiddlewareRead_run. cbn [events world].
  rewrite tick_with_produce_replies, !KafkaWrite_run. cbn [events world].
  split; [reflexivity | ].
  destruct (tick w) as [ck lt np pr fr]. destruct ck; reflexivity.
Qed.

Lemma read_loop_with_produce_replies (kp : KafkaProducer) (c : Conn) :
  forall (recv : SourceCoords) (ps : list (option error)) (w : World),
    res (read_loop (Some kp) c recv (with_produce_replies ps w))
    = res (read_loop (Some kp) c recv w) /\
    events (read_loop (Some kp) c recv (with_produce_replies ps w))
    = events (read_loop (Some kp) c recv w).
Proof.
  induction c as [ | [payload | e] rest IH]; intros recv ps w; try (split; reflexivity).
  destruct (json.Decode payload recv) as [r err] eqn:D.
  destruct err as [e | ].
  - rewrite !(read_loop_reject _ _ recv r rest e) by (cbn; now rewrite D).
    split; reflexivity.
  - rewrite !(read_loop_accept kp _ recv r rest) by (cbn; now rewrite D).
    cbn [res events].
    destruct (MiddlewareRead_with_produce_replies kp (encode r) ps w) as (E & W).
    rewrite E, W. destruct (IH r (tl ps) (world (MiddlewareRead (encode r) (Some kp) w)))
      as (R' & E').
    rewrite R', E'. split; reflexivity.
Qed.

(** C9. [KafkaWrite] on a producer returns normally whatever [Produce]
    answers, and nothing of that answer reaches the caller: the calls it
    makes, and the result and the calls of a whole session's loop, are the
    same under any other script of [Produce] replies. *)
Theorem KafkaWrite_discards_produce_error
        (kp : KafkaProducer) (word : json.bytes) (c : Conn) (recv : SourceCoords)
        (ps : list (option error)) (w : World) :
  res (KafkaWrite (Some kp) word w) = Returned tt /\
  events (KafkaWrite (Some kp) word (with_produce_replies ps w))
  = events (KafkaWrite (Some kp) word w) /\
  res (read_loop (Some kp) c recv (with_produce_replies ps w))
  = res (read_loop (Some kp) c recv w) /\
  events (read_loop (Some kp) c recv (with_produce_replies ps w))
  = events (read_loop (Some kp) c recv w).
Proof.
  rewrite !KafkaWrite_run. cbn [res events].
  repeat split; try reflexivity; apply read_loop_with_produce_replies.
Qed.

(** C4. A decode failure ends the session: in whatever state the loop is,
    when the payload of the next message does not decode, the loop logs
    "Unexpected closure" and returns; the messages after it are not read and
    nothing is published. *)
Theorem decode_failure_ends_session
        (k : option KafkaProducer) (payload : json.bytes) (recv : SourceCoords)
        (rest : Conn) (w : World) :
  snd (json.Decode payload recv) <> None ->
  read_loop k (Frame payload :: rest) recv w
  = mkRun (Returned tt) w [EvLog LogUnexpectedClosure].
Proof.
  intros H. destruct (json.Decode payload recv) as [r [e | ]] eqn:D.
  - apply (read_loop_reject k _ recv r rest e). cbn. now rewrite D.
  - now contradiction H.
Qed.







End Bridge.

(** ** The consumer *)

Section Consumer.
Context {S : Strconv}.

(** C10. A message that fails to unmarshal is still forwarded: the loop
    logs the error and sends the loop variable as the failed call left it,
    once, then goes on polling.  When the payload is not the text of a JSON
    object the variable is untouched, so the record sent is the previous
    one (the zero record on the first turn). *)
Theorem unmarshal_failure_still_sends
        (value : json.bytes) (t t' : SourceCoords) (e : error)
        (rest : list poll_event) (w : World) :
  json.Unmarshal value t = (t', Some e) ->
  poll_loop (PollMessage value :: rest) t w
  = mkRun (res (poll_loop rest t' w)) (world (poll_loop rest t' w))
          ([EvLog LogHeaders; EvLog (LogUnmarshal e); EvSend t']
             ++ events (poll_loop rest t' w)) /\
  match value with
  | json.Text (json.Object _) => True
  | _ => t' = t
  end.
Proof.
  intros U. split.
  - cbn [poll_loop]. rewrite U. reflexivity.
  - destruct value as [v | v | | ]; cbn in U; try congruence.
    destruct v; cbn in U; try congruence; exact I.
Qed.

End Consumer.

(** ** The Publish Queue under the fail-open policy *)

Module PublishQueueFacts.
Import PublishQueue.

Lemma dequeue_none (q : Queue) : dequeue O q = q.
Proof. now destruct q. Qed.

Lemma enqueue_full_undrained (e : PublishQueueEntry) (timeout : nat) :
  forall (q : Queue) (drain : list nat),
    full q = true -> Forall (fun n => n = O) drain ->
    enqueue q e timeout drain = (q, false, timeout).
Proof.
  induction timeout as [ | timeout IH]; intros q drain F D; cbn [enqueue]; rewrite F.
  - reflexivity.
  - assert (H0 : hd O drain = O) by (destruct D; [reflexivity | assumption]).
    assert (Dt : Forall (fun n => n = O) (tl drain)) by (destruct D; [constructor | assumption]).
    rewrite H0, dequeue_none, (IH q (tl drain) F Dt). reflexivity.
Qed.

Lemma enqueue_waits_at_most (e : PublishQueueEntry) (timeout : nat) :
  forall (q : Queue) (drain : list nat),
    (snd (enqueue q e timeout drain) <= timeout)%nat.
Proof.
  induction timeout as [ | timeout IH]; intros q drain; cbn [enqueue];
    destruct (full q); cbn; try lia.
  specialize (IH (dequeue (hd O drain) q) (tl drain)).
  destruct (enqueue (dequeue (hd O drain) q) e timeout (tl drain)) as [[q' ok] n].
  cbn in *. lia.
Qed.

(** C8. Fail-open on a full queue: when the queue is at capacity and stays
    so for the whole wait (the Publisher takes nothing), an Active
    session's enqueue attempt under the fail-open policy returns a drop
    after blocking for its timeout and no longer, adds one to the session's
    drop counter, leaves the queue as it was and the session Active; and
    whatever the Publisher does meanwhile, the attempt blocks no longer
    than the timeout and the session stays Active. *)
Theorem fail_open_drops_when_full
        (timeout : nat) (drain : list nat) (now : Z)
        (s : SourceSession) (q : Queue) (r : SourceCoords) :
  state s = Active ->
  full q = true ->
  Forall (fun n => n = O) drain ->
  attempt FailOpen timeout drain now s q r
  = (mkSession (sourceID s) (sequence s + 1) Active (drops s + 1), q, Dropped, timeout) /\
  forall drain' : list nat,
    (snd (attempt FailOpen timeout drain' now s q r) <= timeout)%nat /\
    state (fst (fst (fst (attempt FailOpen timeout drain' now s q r)))) = Active.
Proof.
  intros A F D. unfold attempt. rewrite A. split.
  - now rewrite (enqueue_full_undrained _ timeout q drain F D).
  - intros drain'.
    pose proof (enqueue_waits_at_most (mkEntry r now 0) timeout q drain') as B.
    destruct (enqueue q (mkEntry r now 0) timeout drain') as [[q' ok] n].
    destruct ok; cbn in *; auto.
Qed.

End PublishQueueFacts.

(** ** More on the receiver's session *)

Section Session.
Context {S : Strconv}.

Lemma zero_marshalable : marshalable zero.
Proof.
  repeat split; try reflexivity; unfold is_int, int_min, int_max; cbn; lia.
Qed.

Lemma mk_marshalable (z : Z) (f g : float64) :
  is_int z -> is_float64 f = true -> finite f = true ->
  is_float64 g = true -> finite g = true ->
  marshalable (mkSourceCoords z f g).
Proof. intros. repeat (split; try assumption). Qed.

Lemma member_marshalable (r : SourceCoords) (saved : option error)
      (kv : string * json.value) :
  marshalable r -> marshalable (fst (json.member (r, saved) kv)).
Proof.
  intros M. pose proof M as ((I & VLa & VLo) & La & Lo).
  destruct kv as [k v]. unfold json.member.
  destruct (json.EqualFold k "obuid").
  - unfold json.store_int.
    destruct v; try destruct (ParseInt n) eqn:P; cbn [fst];
      apply mk_marshalable; auto.
    eapply ParseInt_is_int; eassumption.
  - destruct (json.EqualFold k "lat"); [ | destruct (json.EqualFold k "lon")];
      unfold json.store_float; try exact M;
      (destruct v; try destruct (ParseFloat n) eqn:P; cbn [fst];
       apply mk_marshalable; auto; eapply ParseFloat_finite; eassumption).
Qed.

Lemma members_marshalable (ms : list (string * json.value)) :
  forall (r : SourceCoords) (saved : option error),
    marshalable r -> marshalable (fst (fold_left json.member ms (r, saved))).
Proof.
  induction ms as [ | kv ms IH]; intros r saved M; cbn [fold_left]; [exact M | ].
  pose proof (member_marshalable r saved kv M) as M'.
  destruct (json.member (r, saved) kv) as [r' saved']. now apply IH.
Qed.

Lemma Decode_marshalable (payload : json.bytes) (recv : SourceCoords) :
  marshalable recv -> marshalable (fst (json.Decode payload recv)).
Proof.
  intros M. destruct payload as [v | v | | ]; cbn; try exact M;
    destruct v; cbn; try exact M; now apply members_marshalable.
Qed.

Lemma accepted_marshalable (c : Conn) :
  forall recv, marshalable recv -> Forall marshalable (accepted c recv).
Proof.
  induction c as [ | [payload | e] rest IH]; intros recv M; cbn [accepted];
    try constructor.
  pose proof (Decode_marshalable payload recv M) as M'.
  destruct (json.Decode payload recv) as [r [e | ]]; cbn [fst] in M'; constructor; auto.
Qed.

Lemma MiddlewareRead_nil_run (b : json.bytes) (w : World) :
  MiddlewareRead b None w =
    mkRun (Panicked "invalid memory address or nil pointer dereference")
          (tick (tick w))
          [EvLog (LogWriteTook (now_of (tick w) - now_of w))].
Proof.
  unfold MiddlewareRead, bind, defer. rewrite Now_run. cbn [res world events].
  unfold KafkaWrite, panic. cbn [res world events].
  rewrite Since_run. cbn [res world events app]. reflexivity.
Qed.

Lemma read_loop_nil_accept (c : Conn) (recv recv' : SourceCoords) (rest : Conn)
      (w : World) :
  ReadJSON c recv = (None, recv', rest) ->
  read_loop None c recv w =
    mkRun (Panicked "invalid memory address or nil pointer dereference")
          (tick (tick w))
          [EvLog (LogReceived recv'); EvLog (LogPayload (encode recv'));
           EvLog (LogWriteTook (now_of (tick w) - now_of w))].
Proof.
  destruct c as [ | [payload | e'] c']; cbn [ReadJSON]; try discriminate.
  cbn [read_loop].
  destruct (json.Decode payload recv) as [r [err | ]]; [discriminate | ].
  intros H. injection H as <- <-.
  unfold encode. destruct (json.Marshal r) as [resp merr]. cbn [fst].
  unfold bind, log, emit. cbn [res world events].
  rewrite MiddlewareRead_nil_run. reflexivity.
Qed.

Lemma ReadMessageLoop_nil_run (c : Conn) (w : World) (err : error) :
  new_producer w = Some err ->
  ReadMessageLoop c w =
    let r := read_loop None c zero w in
    mkRun (res r) (world r)
          ([EvNewProducer server; EvLog (LogProducerFailed err); EvLog (LogErr err)]
             ++ events r ++ [EvConnClose]).
Proof.
  intros NP. unfold ReadMessageLoop, defer, NewKafkaProducer, bind, emit, log, emit, ret.
  cbn [res world events]. rewrite NP. cbn [res world events].
  reflexivity.
Qed.

Lemma flush_warning_loop_events (n : Z) : forallb loop_event (flush_warning n) = true.
Proof. unfold flush_warning. now destruct (n >? 0). Qed.

Lemma read_loop_loop_events (k : option KafkaProducer) (c : Conn) :
  forall (recv : SourceCoords) (w : World),
    forallb loop_event (events (read_loop k c recv w)) = true.
Proof.
  induction c as [ | [payload | e] rest IH]; intros recv w; try reflexivity.
  destruct (json.Decode payload recv) as [r err] eqn:D.
  destruct err as [e | ].
  - now rewrite (read_loop_reject _ _ recv r rest e) by (cbn; now rewrite D).
  - destruct k as [kp | ].
    + rewrite (read_loop_accept kp _ recv r rest) by (cbn; now rewrite D).
      cbn [events]. rewrite MiddlewareRead_run. cbn [events].
      rewrite KafkaWrite_run. cbn [events].
      rewrite !forallb_app, IH, flush_warning_loop_events. reflexivity.
    + now rewrite (read_loop_nil_accept _ recv r rest) by (cbn; now rewrite D).
Qed.

Lemma read_loop_nil_produced (c : Conn) (recv : SourceCoords) (w : World) :
  broker_calls (events (read_loop None c recv w)) = [] /\
  produced (events (read_loop None c recv w)) = [].
Proof.
  destruct c as [ | [payload | e] rest]; try (split; reflexivity).
  destruct (json.Decode payload recv) as [r err] eqn:D.
  destruct err as [e | ].
  - rewrite (read_loop_reject _ _ recv r rest e) by (cbn; now rewrite D).
    split; reflexivity.
  - rewrite (read_loop_nil_accept _ recv r rest) by (cbn; now rewrite D).
    split; reflexivity.
Qed.

Lemma ReadMessageLoop_produced (c : Conn) (w : World) :
  produced (events (ReadMessageLoop c w))
  = match new_producer w with
    | None => map encode (accepted c zero)
    | Some _ => []
    end.
Proof.
  destruct (new_producer w) as [err | ] eqn:NP.
  - rewrite (ReadMessageLoop_nil_run c w err NP). cbn [events].
    rewrite !produced_app. destruct (read_loop_nil_produced c zero w) as (_ & ->).
    reflexivity.
  - rewrite (ReadMessageLoop_run c w NP). cbn [events].
    rewrite !produced_app, read_loop_produced. cbn [produced flat_map app].
    apply app_nil_r.
Qed.

(** X1. The marshal error the loop ignores cannot occur: whatever the
    connection delivers, every payload a session hands to [Produce] is the
    output [json.Marshal] gives without error for a record of the struct
    that holds no NaN and no infinity; never the empty slice of a failed
    marshal. *)
Theorem published_payloads_are_marshalled (c : Conn) (w : World) :
  Forall (fun b => exists r, marshalable r /\ json.Marshal r = (b, None))
         (produced (events (ReadMessageLoop c w))).
Proof.
  rewrite ReadMessageLoop_produced. destruct (new_producer w); [constructor | ].
  pose proof (accepted_marshalable c zero zero_marshalable) as A.
  induction A as [ | r rs M _ IH]; cbn [map]; constructor; [ | exact IH].
  exists r. split; [exact M | ].
  unfold encode. rewrite (Marshal_marshalable r M). reflexivity.
Qed.

(** X2. Fields a message leaves out keep the values of the record read
    before it: after a record [r], a message that carries only "obuid"
    is republished with the new identifier and [r]'s latitude and
    longitude. *)
Theorem missing_fields_keep_previous
        (kp : KafkaProducer) (r recv : SourceCoords) (i : numlit) (z : Z) (w : World) :
  marshalable r ->
  ParseInt i = Some z ->
  produced (events (read_loop (Some kp)
                              [Frame (encode r);
                               Frame (json.Text (json.Object [("obuid", json.Number i)]))]
                              recv w))
  = [encode r; encode (mkSourceCoords z (Lat r) (Lon r))].
Proof.
  intros M P. rewrite read_loop_produced. cbn [accepted].
  rewrite (decode_encode r recv M).
  cbn [json.Decode json.decode_value fold_left]. unfold json.member.
  change (json.EqualFold "obuid" "obuid") with true.
  cbn [json.store_int]. rewrite P. reflexivity.
Qed.

(** X3. When the producer could not be created the session goes on with a
    nil producer: the first message that decodes makes [KafkaWrite] panic,
    no call reaches the broker client, the timing line is still logged and
    the connection is still closed. *)
Theorem nil_producer_panics_on_first_record
        (payload : json.bytes) (rest : Conn) (w : World) (err : error) :
  new_producer w = Some err ->
  snd (json.Decode payload zero) = None ->
  res (ReadMessageLoop (Frame payload :: rest) w)
  = Panicked "invalid memory address or nil pointer dereference" /\
  broker_calls (events (ReadMessageLoop (Frame payload :: rest) w)) = [] /\
  exists pre d,
    events (ReadMessageLoop (Frame payload :: rest) w)
    = pre ++ [EvLog (LogWriteTook d); EvConnClose].
Proof.
  intros NP D. rewrite (ReadMessageLoop_nil_run _ w err NP).
  destruct (json.Decode payload zero) as [r e] eqn:Dec. cbn [snd] in D. subst e.
  rewrite (read_loop_nil_accept _ zero r rest) by (cbn; now rewrite Dec).
  cbn [res world events]. split; [reflexivity | split; [reflexivity | ]].
  eexists [_; _; _; _; _], _. reflexivity.
Qed.

(** X4. The connection is closed exactly once, as the last thing a session
    does, however the session ends: on a read error, a decode error, the
    end of the input or a panic. *)
Theorem connection_closed_once_at_end (c : Conn) (w : World) :
  exists pre,
    events (ReadMessageLoop c w) = pre ++ [EvConnClose] /\
    ~ In EvConnClose pre.
Proof.
  assert (N : forall k t, forallb loop_event t = true ->
                          ~ In EvConnClose (k ++ t) \/ In EvConnClose k).
  { intros k t F. destruct (in_dec (fun a b : bool => Bool.bool_dec a b) true
                                   (map (fun e => match e with EvConnClose => true | _ => false end) k))
      as [H | H].
    - right. apply in_map_iff in H. destruct H as (e & He & Hin).
      destruct e; try discriminate. exact Hin.
    - left. intros Hin. apply in_app_or in Hin. destruct Hin as [Hin | Hin].
      + apply H. apply in_map_iff. exists EvConnClose. auto.
      + rewrite forallb_forall in F. specialize (F _ Hin). discriminate. }
  destruct (new_producer w) as [err | ] eqn:NP.
  - rewrite (ReadMessageLoop_nil_run c w err NP). cbn [events].
    eexists. rewrite app_assoc. split; [reflexivity | ].
    destruct (N [EvNewProducer server; EvLog (LogProducerFailed err); EvLog (LogErr err)]
                (events (read_loop None c zero w))
                (read_loop_loop_events None c zero w)) as [H | H]; [exact H | ].
    cbn in H. intuition discriminate.
  - rewrite (ReadMessageLoop_run c w NP). cbn [events].
    eexists. rewrite app_assoc. split; [reflexivity | ].
    destruct (N [EvNewProducer server]
                (events (read_loop (Some (mkKafkaProducer topic)) c zero w))
                (read_loop_loop_events _ c zero w)) as [H | H]; [exact H | ].
    cbn in H. intuition discriminate.
Qed.

Lemma accepted_app (c1 c2 : Conn) :
  forall recv, exists tail, accepted (c1 ++ c2) recv = accepted c1 recv ++ tail.
Proof.
  induction c1 as [ | [payload | e] c1 IH]; intros recv; cbn [app accepted].
  - eexists. reflexivity.
  - destruct (json.Decode payload recv) as [r [e | ]].
    + exists []. reflexivity.
    + destruct (IH r) as (tail & ->). exists tail. reflexivity.
  - exists []. reflexivity.
Qed.

(** X5. Publishing follows the input: what a session has published after a
    prefix of the connection's messages stays as the beginning of what it
    publishes on the whole connection; later messages add to it and never
    reorder or retract. *)
Theorem published_prefix_stable (c1 c2 : Conn) (w : World) :
  exists tail,
    produced (events (ReadMessageLoop (c1 ++ c2) w))
    = produced (events (ReadMessageLoop c1 w)) ++ tail.
Proof.
  rewrite !ReadMessageLoop_produced. destruct (new_producer w).
  - exists []. reflexivity.
  - destruct (accepted_app c1 c2 zero) as (tail & ->).
    exists (map encode tail). apply map_app.
Qed.

(** X6. The wire form tells records apart: two records of the struct
    without NaN or infinities that marshal to the same bytes are the same
    record. *)
Theorem encode_injective (r r' : SourceCoords) :
  marshalable r -> marshalable r' -> encode r = encode r' -> r = r'.
Proof.
  intros M M' E.
  pose proof (decode_encode r zero M) as D.
  rewrite E, (decode_encode r' zero M') in D. congruence.
Qed.

Lemma data_path_flush_warning (n : Z) : data_path (flush_warning n) = [].
Proof. unfold flush_warning. now destruct (n >? 0). Qed.

Lemma read_loop_data_path (kp : KafkaProducer) (c : Conn) :
  forall (recv : SourceCoords) (w : World),
    res (read_loop (Some kp) c recv w) = Returned tt /\
    data_path (events (read_loop (Some kp) c recv w))
    = flat_map (fun b => [EvProduce (mkMessage topic PartitionAny b); EvFlush 15000])
               (map encode (accepted c recv)).
Proof.
  induction c as [ | [payload | e] rest IH]; intros recv w; try (split; reflexivity).
  destruct (json.Decode payload recv) as [r err] eqn:D.
  destruct err as [e | ].
  - rewrite (read_loop_reject _ _ recv r rest e) by (cbn; now rewrite D).
    cbn [accepted]. rewrite D. split; reflexivity.
  - rewrite (read_loop_accept kp _ recv r rest) by (cbn; now rewrite D).
    cbn [res events accepted]. rewrite D.
    destruct (IH r (world (MiddlewareRead (encode r) (Some kp) w))) as (R & E).
    split; [exact R | ].
    rewrite !data_path_app, E.
    rewrite MiddlewareRead_run. cbn [events]. rewrite KafkaWrite_run. cbn [events].
    rewrite !data_path_app, data_path_flush_warning. reflexivity.
Qed.

(** X15. Nothing the broker or the clock answers reaches the session: once
    the producer is created a session returns normally, and the calls it
    makes apart from log lines (creating the producer, each [Produce] and
    [Flush], closing the connection) are the same in any two worlds, whatever
    [Produce] returns, however many messages [Flush] leaves queued and
    whatever the time is. *)
Theorem session_ignores_broker_replies (c : Conn) (w w' : World) :
  new_producer w = None ->
  new_producer w' = None ->
  res (ReadMessageLoop c w) = Returned tt /\
  data_path (events (ReadMessageLoop c w)) = data_path (events (ReadMessageLoop c w')).
Proof.
  intros NP NP'. rewrite (ReadMessageLoop_run c w NP), (ReadMessageLoop_run c w' NP').
  cbn [res events].
  destruct (read_loop_data_path (mkKafkaProducer topic) c zero w) as (R & E).
  destruct (read_loop_data_path (mkKafkaProducer topic) c zero w') as (_ & E').
  split; [exact R | ].
  now rewrite !data_path_app, E, E'.
Qed.

End Session.

(** ** More on the consumer loop *)

Section ConsumerLoop.
Context {S : Strconv}.

Lemma poll_loop_message (value : json.bytes) (rest : list poll_event)
      (t : SourceCoords) (w : World) :
  poll_loop (PollMessage value :: rest) t w =
    let t' := fst (json.Unmarshal value t) in
    let r := poll_loop rest t' w in
    mkRun (res r) (world r)
          ([EvLog LogHeaders]
             ++ match snd (json.Unmarshal value t) with
                | Some e => [EvLog (LogUnmarshal e)]
                | None => []
                end
             ++ [EvSend t'] ++ events r).
Proof.
  cbn [poll_loop]. destruct (json.Unmarshal value t) as [t' [e | ]]; reflexivity.
Qed.

Lemma sent_app (t u : list event) : sent (t ++ u) = sent t ++ sent u.
Proof. unfold sent. now rewrite flat_map_app. Qed.

Lemma poll_loop_sent (evs : list poll_event) :
  forall (t : SourceCoords) (w : World),
    sent (events (poll_loop evs t w)) = forwarded evs t.
Proof.
  induction evs as [ | [value | e | ] rest IH]; intros t w; try reflexivity.
  - rewrite poll_loop_message. cbn [events forwarded].
    rewrite !sent_app, IH.
    destruct (snd (json.Unmarshal value t)); reflexivity.
  - cbn [poll_loop forwarded]. apply IH.
Qed.

Lemma poll_loop_res (evs : list poll_event) :
  forall (t : SourceCoords) (w : World),
    res (poll_loop evs t w) = Returned (negb (existsb is_poll_error evs)).
Proof.
  induction evs as [ | [value | e | ] rest IH]; intros t w; try reflexivity.
  - rewrite poll_loop_message. cbn [res existsb is_poll_error orb]. apply IH.
  - cbn [poll_loop existsb is_poll_error orb]. apply IH.
Qed.

Lemma poll_loop_no_close (evs : list poll_event) :
  forall (t : SourceCoords) (w : World),
    ~ In EvConsumerClose (events (poll_loop evs t w)).
Proof.
  induction evs as [ | [value | e | ] rest IH]; intros t w.
  - cbn. tauto.
  - rewrite poll_loop_message. cbn [events]. intros H.
    apply in_app_or in H. destruct H as [[H | []] | H]; [discriminate | ].
    apply in_app_or in H. destruct H as [H | H].
    + destruct (snd (json.Unmarshal value t)); cbn in H; intuition discriminate.
    + destruct H as [H | H]; [discriminate | ]. now apply IH in H.
  - cbn. intuition discriminate.
  - cbn [poll_loop]. apply IH.
Qed.

Lemma kafkaconsumeLoop_run (evs : list poll_event) (w : World) :
  kafkaconsumeLoop evs w =
    let r := poll_loop evs zero w in
    mkRun (Returned (negb (existsb is_poll_error evs))) (world r)
          (events r ++ if existsb is_poll_error evs then [EvConsumerClose] else []).
Proof.
  unfold kafkaconsumeLoop, bind. rewrite poll_loop_res.
  destruct (existsb is_poll_error evs); cbn; rewrite ?app_nil_r; reflexivity.
Qed.

Lemma poll_loop_cut (pre rest : list poll_event) (e : error) :
  forall (t : SourceCoords) (w : World),
    poll_loop (pre ++ PollError e :: rest) t w = poll_loop (pre ++ [PollError e]) t w.
Proof.
  induction pre as [ | [value | e' | ] pre IH]; intros t w; try reflexivity.
  - cbn [app]. rewrite !poll_loop_message. cbn zeta. now rewrite IH.
  - cbn [app poll_loop]. apply IH.
Qed.

(** X7. The consumer stops at the first Kafka error: what is polled after
    it is never handled, the loop returns and the consumer is closed as the
    last thing done. *)
Theorem consumer_stops_at_first_error
        (pre rest : list poll_event) (e : error) (w : World) :
  kafkaconsumeLoop (pre ++ PollError e :: rest) w
  = kafkaconsumeLoop (pre ++ [PollError e]) w /\
  res (kafkaconsumeLoop (pre ++ PollError e :: rest) w) = Returned false /\
  exists t,
    events (kafkaconsumeLoop (pre ++ PollError e :: rest) w) = t ++ [EvConsumerClose].
Proof.
  assert (E : forall l, existsb is_poll_error (pre ++ PollError e :: l) = true).
  { intros l. rewrite existsb_app. cbn. apply orb_true_r. }
  split; [ | split].
  - unfold kafkaconsumeLoop. unfold bind. now rewrite poll_loop_cut.
  - rewrite kafkaconsumeLoop_run. cbn [res]. now rewrite E.
  - rewrite kafkaconsumeLoop_run. cbn [events]. rewrite E. eexists. reflexivity.
Qed.

(** X8. Without a Kafka error the consumer is never closed: after any
    number of messages and empty polls the loop is still polling. *)
Theorem consumer_open_without_error (evs : list poll_event) (w : World) :
  existsb is_poll_error evs = false ->
  res (kafkaconsumeLoop evs w) = Returned true /\
  ~ In EvConsumerClose (events (kafkaconsumeLoop evs w)).
Proof.
  intros E. rewrite kafkaconsumeLoop_run. cbn [res events]. rewrite E.
  split; [reflexivity | ]. rewrite app_nil_r. apply poll_loop_no_close.
Qed.

Lemma forwarded_length (evs : list poll_event) :
  forall t, List.length (forwarded evs t)
            = List.length (filter is_poll_message (until_error evs)).
Proof.
  induction evs as [ | [value | e | ] rest IH]; intros t; cbn; auto.
Qed.

Lemma kafkaconsumeLoop_sent (evs : list poll_event) (w : World) :
  sent (events (kafkaconsumeLoop evs w)) = forwarded evs zero.
Proof.
  rewrite kafkaconsumeLoop_run. cbn [events]. rewrite sent_app, poll_loop_sent.
  destruct (existsb is_poll_error evs); cbn; apply app_nil_r.
Qed.

(** X9. One record out per message in: the consumer sends on its channel
    exactly as many records as it polled messages before the first error,
    whether or not their payloads unmarshal. *)
Theorem one_send_per_message (evs : list poll_event) (w : World) :
  List.length (sent (events (kafkaconsumeLoop evs w)))
  = List.length (filter is_poll_message (until_error evs)).
Proof. rewrite kafkaconsumeLoop_sent. apply forwarded_length. Qed.

Lemma poll_loop_skip_other (evs : list poll_event) :
  forall (t : SourceCoords) (w : World),
    poll_loop (filter (fun ev => negb (is_poll_other ev)) evs) t w = poll_loop evs t w.
Proof.
  induction evs as [ | [value | e | ] rest IH]; intros t w; try reflexivity.
  - cbn [filter is_poll_other negb]. rewrite !poll_loop_message. cbn zeta.
    now rewrite IH.
  - cbn [filter is_poll_other negb poll_loop]. apply IH.
Qed.

(** X10. Polls that return neither a message nor an error (timeouts, other
    events) leave no trace: the consumer behaves as if they had not
    happened. *)
Theorem empty_polls_are_transparent (evs : list poll_event) (w : World) :
  kafkaconsumeLoop (filter (fun ev => negb (is_poll_other ev)) evs) w
  = kafkaconsumeLoop evs w.
Proof.
  unfold kafkaconsumeLoop, bind. now rewrite poll_loop_skip_other.
Qed.

Lemma Unmarshal_encode (r prev : SourceCoords) :
  marshalable r -> json.Unmarshal (encode r) prev = (r, None).
Proof.
  intros M. pose proof (decode_encode r prev M) as D.
  unfold encode in *. rewrite (Marshal_marshalable r M) in *. exact D.
Qed.

Lemma forwarded_encoded (rs : list SourceCoords) :
  Forall marshalable rs ->
  forall t, forwarded (map (fun r => PollMessage (encode r)) rs) t = rs.
Proof.
  induction 1 as [ | r rs M _ IH]; intros t; [reflexivity | ].
  cbn [map forwarded]. rewrite (Unmarshal_encode r t M). cbn [fst]. now rewrite IH.
Qed.

(** X11. Messages that carry marshalled records come out of the consumer
    as those records, each once and in topic order. *)
Theorem consumer_delivers_in_order (rs : list SourceCoords) (w : World) :
  Forall marshalable rs ->
  sent (events (kafkaconsumeLoop (map (fun r => PollMessage (encode r)) rs) w)) = rs.
Proof.
  intros M. rewrite kafkaconsumeLoop_sent. now apply forwarded_encoded.
Qed.

(** X12. Receiver and consumer compose: when the payloads a session
    published are polled by the consumer, in the order published, the
    consumer sends one record per payload, and marshalling those records
    gives the published payloads back. *)
Theorem bridge_then_consumer (c : Conn) (w w' : World) :
  map encode
      (sent (events (kafkaconsumeLoop
                       (map PollMessage (produced (events (ReadMessageLoop c w)))) w')))
  = produced (events (ReadMessageLoop c w)).
Proof.
  rewrite kafkaconsumeLoop_sent, ReadMessageLoop_produced.
  destruct (new_producer w); [reflexivity | ].
  rewrite map_map.
  now rewrite (forwarded_encoded _ (accepted_marshalable c zero zero_marshalable)).
Qed.

End ConsumerLoop.

(** ** The producer's send loop *)

Section ProducerLoop.
Context {S : Strconv}.

Lemma MiddlewareReceiver_retOBUdata (d : draw) (w : World) :
  MiddlewareReceiver (retOBUdata d) w =
    mkRun (Returned (OBUID (generated d), Lat (generated d), Lon (generated d)))
          (tick (tick w))
          [EvLog (LogGenerationTook (now_of (tick w) - now_of w))].
Proof.
  unfold MiddlewareReceiver, bind, defer. rewrite Now_run. cbn [res world events].
  unfold retOBUdata, ret. cbn [res world events].
  rewrite Since_run. cbn [res world events app]. reflexivity.
Qed.

Lemma send_loop_step (d : draw) (rest : list draw) (replies : list (option error))
      (w : World) :
  send_loop (d :: rest) replies w =
    (map PCall (events (MiddlewareReceiver (retOBUdata d) w))
       ++ [PSleep Second; PPrint (generated d)]
       ++ map PWrite (fst (WriteJSON (hd None replies) (generated d)))
       ++ match snd (WriteJSON (hd None replies) (generated d)) with
          | Some e => [PLogWriteError e]
          | None => []
          end
       ++ fst (send_loop rest (tl replies) (tick (tick w))),
     snd (send_loop rest (tl replies) (tick (tick w)))).
Proof.
  cbn [send_loop]. rewrite MiddlewareReceiver_retOBUdata. cbn [res world events].
  change (mkSourceCoords (OBUID (generated d)) (Lat (generated d)) (Lon (generated d)))
    with (generated d).
  destruct (WriteJSON (hd None replies) (generated d)) as [msgs err].
  destruct (send_loop rest (tl replies) (tick (tick w))) as [later w'].
  reflexivity.
Qed.

Lemma written_app (t u : list producer_event) : written (t ++ u) = written t ++ written u.
Proof. unfold written. now rewrite flat_map_app. Qed.

Lemma printed_app (t u : list producer_event) : printed (t ++ u) = printed t ++ printed u.
Proof. unfold printed. now rewrite flat_map_app. Qed.

Lemma written_PCall (t : list event) : written (map PCall t) = [].
Proof. induction t; [reflexivity | exact IHt]. Qed.

Lemma printed_PCall (t : list event) : printed (map PCall t) = [].
Proof. induction t; [reflexivity | exact IHt]. Qed.

Lemma written_PWrite (bs : list json.bytes) : written (map PWrite bs) = bs.
Proof. induction bs; [reflexivity | cbn; now f_equal]. Qed.

Lemma printed_PWrite (bs : list json.bytes) : printed (map PWrite bs) = [].
Proof. induction bs; [reflexivity | exact IHbs]. Qed.

Lemma send_loop_written (draws : list draw) :
  forall (replies : list (option error)) (w : World),
    written (fst (send_loop draws replies w))
    = map (fun d => fst (json.Marshal (generated d))) (delivered draws replies).
Proof.
  induction draws as [ | d rest IH]; intros replies w; [reflexivity | ].
  rewrite send_loop_step. cbn [fst].
  rewrite !written_app, written_PCall, written_PWrite, IH.
  cbn [delivered]. unfold WriteJSON.
  destruct (hd None replies) as [e | ]; cbn [fst snd].
  - reflexivity.
  - destruct (snd (json.Marshal (generated d))); reflexivity.
Qed.

Lemma send_loop_printed (draws : list draw) :
  forall (replies : list (option error)) (w : World),
    printed (fst (send_loop draws replies w)) = map generated draws.
Proof.
  induction draws as [ | d rest IH]; intros replies w; [reflexivity | ].
  rewrite send_loop_step. cbn [fst].
  rewrite !printed_app, printed_PCall, printed_PWrite, IH.
  destruct (snd (WriteJSON (hd None replies) (generated d))); reflexivity.
Qed.

(** X13. A failed write does not stop the producer.  Whatever the
    connection answers, every draw is turned into a record and announced,
    in order; and the messages handed to the connection are, in order, what
    [json.Marshal] wrote for the records whose write the connection
    accepted. *)
Theorem producer_survives_write_errors
        (draws : list draw) (replies : list (option error)) (w : World) :
  printed (fst (send_loop draws replies w)) = map generated draws /\
  written (fst (send_loop draws replies w))
  = map (fun d => fst (json.Marshal (generated d))) (delivered draws replies).
Proof. split; [apply send_loop_printed | apply send_loop_written]. Qed.

Lemma delivered_marshalable (draws : list draw) :
  Forall (fun d => marshalable (generated d)) draws ->
  forall replies,
    Forall marshalable (map generated (delivered draws replies)).
Proof.
  induction 1 as [ | d rest M _ IH]; intros replies; cbn [delivered map];
    [constructor | ].
  destruct (hd None replies); cbn [map]; auto.
Qed.

(** X14. The whole pipeline carries the generated records through: when
    the records the producer generates hold no NaN or infinity and the
    receiver's Kafka producer was created, a receiver session reading the
    messages the producer's loop wrote publishes the wire form of each
    record whose write was accepted, in order, and a consumer polling
    those payloads sends exactly those records. *)
Theorem pipeline_delivers_generated_records
        (draws : list draw) (replies : list (option error)) (wp wr wc : World) :
  Forall (fun d => marshalable (generated d)) draws ->
  new_producer wr = None ->
  produced (events (ReadMessageLoop
                      (map Frame (written (fst (send_loop draws replies wp)))) wr))
  = map encode (map generated (delivered draws replies)) /\
  sent (events (kafkaconsumeLoop
                  (map PollMessage
                       (produced (events (ReadMessageLoop
                                            (map Frame (written (fst (send_loop draws replies wp))))
                                            wr))))
                  wc))
  = map generated (delivered draws replies).
Proof.
  intros M NP.
  pose proof (send_loop_written draws replies wp) as W.
  pose proof (delivered_marshalable draws M replies) as MD.
  assert (P : produced (events (ReadMessageLoop
                      (map Frame (written (fst (send_loop draws replies wp)))) wr))
              = map encode (map generated (delivered draws replies))).
  { rewrite ReadMessageLoop_produced, NP, W. f_equal.
    replace (map Frame (map (fun d => fst (json.Marshal (generated d)))
                            (delivered draws replies)))
      with (map (fun r => Frame (encode r)) (map generated (delivered draws replies)))
      by (rewrite !map_map; reflexivity).
    now apply accepted_encoded. }
  split; [exact P | ].
  rewrite P, kafkaconsumeLoop_sent, (map_map encode PollMessage).
  now apply forwarded_encoded.
Qed.

End ProducerLoop.

(** ** Concrete runs *)

Lemma r1_valid : valid r1.
Proof.
  repeat split; try reflexivity; apply is_intb_spec; reflexivity.
Qed.

Lemma r2_valid : valid r2.
Proof.
  repeat split; try reflexivity; apply is_intb_spec; reflexivity.
Qed.

Lemma r3_valid : valid r3.
Proof.
  repeat split; try reflexivity; apply is_intb_spec; reflexivity.
Qed.

Lemma decode_encode_roundtrip_witness :
  valid r1 /\
  json.Decode (encode r1) r3 = (r1, None) /\
  json.Unmarshal (encode r1) r3 = (r1, None).
Proof.
  split; [exact r1_valid | exact (decode_encode_roundtrip r1 r3 r1_valid)].
Defined.

Lemma encode_valid_wire_format_witness :
  valid r3 /\
  exists i la lo : literal,
    json.Marshal r3 =
      (json.Text (json.Object [("obuid", json.Number i);
                               ("lat", json.Number la);
                               ("lon", json.Number lo)]), None) /\
    ParseInt i = Some (OBUID r3) /\
    ParseFloat la = Some (Lat r3) /\
    ParseFloat lo = Some (Lon r3).
Proof.
  split; [exact r3_valid | exact (encode_valid_wire_format r3 r3_valid)].
Defined.

Lemma publish_in_read_order_witness :
  new_producer sample_world = None /\
  Forall valid [r1; r2; r3] /\
  produced (events (ReadMessageLoop
                      [Frame (encode r1); Frame (encode r2); Frame (encode r3)]
                      sample_world))
  = [encode r1; encode r2; encode r3].
Proof.
  assert (V : Forall valid [r1; r2; r3]).
  { constructor; [exact r1_valid | ].
    constructor; [exact r2_valid | ].
    constructor; [exact r3_valid | constructor]. }
  split; [reflexivity | split; [exact V | ]].
  exact (publish_in_read_order [r1; r2; r3] sample_world eq_refl V).
Defined.

Lemma decode_failure_ends_session_witness :
  snd (json.Decode bad_lat_payload r1) <> None /\
  read_loop (Some (mkKafkaProducer topic)) [Frame bad_lat_payload; Frame (encode r2)]
            r1 sample_world
  = mkRun (Returned tt) sample_world [EvLog LogUnexpectedClosure].
Proof.
  assert (H : snd (json.Decode bad_lat_payload r1) <> None) by (vm_compute; discriminate).
  split; [exact H | ].
  exact (decode_failure_ends_session (Some (mkKafkaProducer topic)) bad_lat_payload r1
                                     [Frame (encode r2)] sample_world H).
Defined.


Lemma unmarshal_failure_still_sends_witness :
  json.Unmarshal json.Malformed r1 = (r1, Some SyntaxError) /\
  poll_loop [PollMessage json.Malformed; PollError (KafkaError 1)] r1 sample_world
  = mkRun (res (poll_loop [PollError (KafkaError 1)] r1 sample_world))
          (world (poll_loop [PollError (KafkaError 1)] r1 sample_world))
          ([EvLog LogHeaders; EvLog (LogUnmarshal SyntaxError); EvSend r1]
             ++ events (poll_loop [PollError (KafkaError 1)] r1 sample_world)) /\
  r1 = r1.
Proof.
  split; [reflexivity | ].
  exact (unmarshal_failure_still_sends json.Malformed r1 r1 SyntaxError
                                       [PollError (KafkaError 1)] sample_world eq_refl).
Defined.

(** Against C10 as stated: a message whose "lat" is a string fails to
    unmarshal, yet what is sent is neither the previous record nor the zero
    record: "obuid" was stored before the error. *)
Lemma type_error_sends_partial_update :
  json.Unmarshal bad_lat_payload zero
  = (mkSourceCoords 7 f64_zero f64_zero, Some (UnmarshalTypeError "string" "lat")) /\
  sent (events (kafkaconsumeLoop [PollMessage bad_lat_payload] sample_world))
  = [mkSourceCoords 7 f64_zero f64_zero] /\
  OBUID (mkSourceCoords 7 f64_zero f64_zero) = 7 /\
  OBUID zero = 0.
Proof. repeat split; vm_compute; reflexivity. Qed.

Lemma fail_open_drops_when_full_witness :
  PublishQueue.state sample_session = PublishQueue.Active /\
  PublishQueue.full sample_full_queue = true /\
  Forall (fun n => n = O) [O; O; O] /\
  PublishQueue.attempt PublishQueue.FailOpen 3 [O; O; O] 12
                       sample_session sample_full_queue r3
  = (PublishQueue.mkSession 42 6 PublishQueue.Active 1,
     sample_full_queue, PublishQueue.Dropped, 3%nat) /\
  forall drain' : list nat,
    (snd (PublishQueue.attempt PublishQueue.FailOpen 3 drain' 12
                               sample_session sample_full_queue r3) <= 3)%nat /\
    PublishQueue.state
      (fst (fst (fst (PublishQueue.attempt PublishQueue.FailOpen 3 drain' 12
                                           sample_session sample_full_queue r3))))
    = PublishQueue.Active.
Proof.
  assert (D : Forall (fun n => n = O) [O; O; O]) by (repeat constructor).
  split; [reflexivity | split; [reflexivity | split; [exact D | ]]].
  exact (PublishQueueFacts.fail_open_drops_when_full
           3 [O; O; O] 12 sample_session sample_full_queue r3 eq_refl eq_refl D).
Defined.

(** ** Further concrete runs *)

(** Bytes after the first JSON value: [ReadJSON] does not look at them,
    [json.Unmarshal] refuses the slice. *)
Lemma trailing_bytes_example :
  json.Decode (json.Trailing (json.Object [("obuid", json.Number (IntLit 7))])) r1
  = (mkSourceCoords 7 (Lat r1) (Lon r1), None) /\
  json.Unmarshal (json.Trailing (json.Object [("obuid", json.Number (IntLit 7))])) r1
  = (r1, Some SyntaxError).
Proof. split; reflexivity. Qed.

Lemma r1_marshalable : marshalable r1.
Proof. exact (valid_marshalable r1 r1_valid). Qed.

Lemma r2_marshalable : marshalable r2.
Proof. exact (valid_marshalable r2 r2_valid). Qed.

Lemma draws_marshalable : Forall (fun d => marshalable (generated d)) [draw1; draw2].
Proof.
  constructor; [ | constructor; [ | constructor]];
    (split; [split; [apply is_intb_spec; reflexivity | split; reflexivity]
            | split; reflexivity]).
Qed.

Lemma missing_fields_keep_previous_witness :
  marshalable r1 /\
  ParseInt (IntLit 7) = Some 7 /\
  produced (events (read_loop (Some (mkKafkaProducer topic))
                              [Frame (encode r1); Frame missing_fields_payload]
                              zero sample_world))
  = [encode r1; encode (mkSourceCoords 7 (Lat r1) (Lon r1))].
Proof.
  split; [exact r1_marshalable | split; [reflexivity | ]].
  exact (missing_fields_keep_previous (mkKafkaProducer topic) r1 zero (IntLit 7) 7
                                      sample_world r1_marshalable eq_refl).
Defined.

Lemma nil_producer_panics_on_first_record_witness :
  new_producer failed_world = Some (KafkaError 2) /\
  snd (json.Decode (encode r1) zero) = None /\
  res (ReadMessageLoop [Frame (encode r1); Frame (encode r2)] failed_world)
  = Panicked "invalid memory address or nil pointer dereference" /\
  broker_calls (events (ReadMessageLoop [Frame (encode r1); Frame (encode r2)] failed_world))
  = [] /\
  exists pre d,
    events (ReadMessageLoop [Frame (encode r1); Frame (encode r2)] failed_world)
    = pre ++ [EvLog (LogWriteTook d); EvConnClose].
Proof.
  split; [reflexivity | split; [reflexivity | ]].
  exact (nil_producer_panics_on_first_record (encode r1) [Frame (encode r2)] failed_world
                                             (KafkaError 2) eq_refl eq_refl).
Defined.

Lemma encode_injective_witness :
  marshalable r1 /\ marshalable r1 /\ encode r1 = encode r1 /\ r1 = r1.
Proof.
  split; [exact r1_marshalable | split; [exact r1_marshalable | split; [reflexivity | ]]].
  exact (encode_injective r1 r1 r1_marshalable r1_marshalable eq_refl).
Defined.

Lemma session_ignores_broker_replies_witness :
  new_producer sample_world = None /\
  new_producer (mkWorld [] 7 None [] [5; 5]) = None /\
  res (ReadMessageLoop [Frame (encode r1); Frame (encode r2)] sample_world) = Returned tt /\
  data_path (events (ReadMessageLoop [Frame (encode r1); Frame (encode r2)] sample_world))
  = data_path (events (ReadMessageLoop [Frame (encode r1); Frame (encode r2)]
                                       (mkWorld [] 7 None [] [5; 5]))).
Proof.
  split; [reflexivity | split; [reflexivity | ]].
  exact (session_ignores_broker_replies [Frame (encode r1); Frame (encode r2)]
                                        sample_world (mkWorld [] 7 None [] [5; 5])
                                        eq_refl eq_refl).
Defined.

Lemma consumer_open_without_error_witness :
  existsb is_poll_error [PollMessage (encode r1); PollOther; PollMessage bad_lat_payload]
  = false /\
  res (kafkaconsumeLoop [PollMessage (encode r1); PollOther; PollMessage bad_lat_payload]
                        sample_world) = Returned true /\
  ~ In EvConsumerClose
       (events (kafkaconsumeLoop
                  [PollMessage (encode r1); PollOther; PollMessage bad_lat_payload]
                  sample_world)).
Proof.
  split; [reflexivity | ].
  exact (consumer_open_without_error
           [PollMessage (encode r1); PollOther; PollMessage bad_lat_payload]
           sample_world eq_refl).
Defined.

Lemma consumer_delivers_in_order_witness :
  Forall marshalable [r1; r2] /\
  sent (events (kafkaconsumeLoop [PollMessage (encode r1); PollMessage (encode r2)]
                                 sample_world))
  = [r1; r2].
Proof.
  assert (M : Forall marshalable [r1; r2]).
  { constructor; [exact r1_marshalable | ].
    constructor; [exact r2_marshalable | constructor]. }
  split; [exact M | ].
  exact (consumer_delivers_in_order [r1; r2] sample_world M).
Defined.

Lemma pipeline_delivers_generated_records_witness :
  Forall (fun d => marshalable (generated d)) [draw1; draw2] /\
  new_producer sample_world = None /\
  produced (events (ReadMessageLoop
                      (map Frame (written (fst (send_loop [draw1; draw2] [None; None]
                                                          sample_world))))
                      sample_world))
  = map encode (map generated (delivered [draw1; draw2] [None; None])) /\
  sent (events (kafkaconsumeLoop
                  (map PollMessage
                       (produced (events (ReadMessageLoop
                                            (map Frame (written (fst (send_loop [draw1; draw2]
                                                                                [None; None]
                                                                                sample_world))))
                                            sample_world))))
                  sample_world))
  = map generated (delivered [draw1; draw2] [None; None]).
Proof.
  split; [exact draws_marshalable | split; [reflexivity | ]].
  exact (pipeline_delivers_generated_records [draw1; draw2] [None; None]
                                             sample_world sample_world sample_world
                                             draws_marshalable eq_refl).
Defined.
